(** * multiport: the multi-port launchers and the hello server

    A shallow embedding of
      - the basic launcher            (multi-port script, module [MultiPort]),
      - the config-based launcher     (multi-port-config script, module [MultiPortConfig]),
      - the HTTP server               (src/index.tsx, module [Server]),
    together with the runtime primitives they call.

    Conventions of the embedding.
      - A JavaScript string is the list of its UTF-16 code units ([jsstring]).
      - A JavaScript number is [NaN] or an integer [Num z].  The scripts only
        ever hold numbers produced by [parseInt(_, 10)], by integer literals
        and by the port arrays of the configuration file.  The integer is kept
        exactly: this is the value of the IEEE double of the source for
        magnitudes up to 2^53, and its printed form for magnitudes below
        10^21.  [-0] is identified with [0] (they are [===]-equal and print
        the same).
      - Effects (console, spawn, kill, timers, exit) are recorded in order in
        the [out] field of the launcher state; every handler is a state
        transformer that runs to completion, as on the JavaScript event loop.
      - The configuration file is taken to follow the schema of the guide:
        an optional [defaultPorts] array of integers and named profiles with
        optional [ports] and [description]. *)

From Stdlib Require Import ZArith NArith String Ascii.
From stdpp Require Import base option list gmap.

Local Open Scope N_scope.

(** ** Strings *)

Abbreviation jsstring := (list N).

(** An ASCII literal as a JavaScript string. *)
Definition lit (s : string) : jsstring :=
  map N_of_ascii (list_ascii_of_string s).

(** WhiteSpace and LineTerminator code units (StrWhiteSpaceChar), the set
    stripped by [String.prototype.trim] and skipped by [parseInt]. *)
Definition is_whitespace (c : N) : bool :=
  (c =? 0x09) || (c =? 0x0A) || (c =? 0x0B) || (c =? 0x0C) || (c =? 0x0D)
  || (c =? 0x20) || (c =? 0xA0) || (c =? 0x1680)
  || ((0x2000 <=? c) && (c <=? 0x200A))
  || (c =? 0x2028) || (c =? 0x2029) || (c =? 0x202F) || (c =? 0x205F)
  || (c =? 0x3000) || (c =? 0xFEFF).

Fixpoint trimStart (s : jsstring) : jsstring :=
  match s with
  | c :: r => if is_whitespace c then trimStart r else s
  | [] => []
  end.

Definition trimEnd (s : jsstring) : jsstring := reverse (trimStart (reverse s)).

Definition trim (s : jsstring) : jsstring := trimEnd (trimStart s).

(** [s.startsWith(p)] *)
Fixpoint startsWith (s p : jsstring) : bool :=
  match p, s with
  | [], _ => true
  | a :: p', b :: s' => (a =? b) && startsWith s' p'
  | _ :: _, [] => false
  end.

(** [s.includes(sub)] *)
Fixpoint includes (s sub : jsstring) : bool :=
  startsWith s sub ||
  match s with
  | [] => false
  | _ :: r => includes r sub
  end.

(** [s.split(",")]: one more piece than there are separators. *)
Fixpoint split (sep : N) (s : jsstring) : list jsstring :=
  match s with
  | [] => [[]]
  | c :: r =>
      if c =? sep then [] :: split sep r
      else match split sep r with
           | piece :: rest => (c :: piece) :: rest
           | [] => [[c]]
           end
  end.

Definition comma : N := 0x2C.

(** [pieces.join(sep)] *)
Fixpoint join (sep : jsstring) (pieces : list jsstring) : jsstring :=
  match pieces with
  | [] => []
  | [p] => p
  | p :: rest => p ++ sep ++ join sep rest
  end.

(** [s.padEnd(n)] with the default filler, a space. *)
Definition padEnd (n : nat) (s : jsstring) : jsstring :=
  s ++ replicate (n - length s) 0x20.

(** ** Numbers *)

Inductive number :=
| NaN
| Num (z : Z).

Global Instance number_eq_dec : EqDecision number.
Proof. solve_decision. Defined.

Definition isNaN (x : number) : bool :=
  match x with NaN => true | Num _ => false end.

(** [a === b] on numbers: [NaN] is not equal to itself. *)
Definition strict_eq (a b : number) : bool :=
  match a, b with
  | Num x, Num y => Z.eqb x y
  | _, _ => false
  end.

Definition is_digit (c : N) : bool := (0x30 <=? c) && (c <=? 0x39).

Fixpoint digits_prefix (s : jsstring) : jsstring :=
  match s with
  | c :: r => if is_digit c then c :: digits_prefix r else []
  | [] => []
  end.

(** The mathematical integer denoted by a sequence of decimal digits. *)
Definition mathInt (ds : jsstring) : N :=
  foldl (fun acc c => 10 * acc + (c - 0x30)) 0 ds.

(** [parseInt(s, 10)]: skip leading white space, read an optional sign, then
    the longest run of decimal digits; [NaN] when that run is empty. *)
Definition parseInt (s : jsstring) : number :=
  let S := trimStart s in
  let sign : Z := match S with
                  | c :: _ => if c =? 0x2D then (-1)%Z else 1%Z
                  | [] => 1%Z
                  end in
  let S := match S with
           | c :: r => if (c =? 0x2B) || (c =? 0x2D) then r else S
           | [] => S
           end in
  match digits_prefix S with
  | [] => NaN
  | ds => Num (sign * Z.of_N (mathInt ds))
  end.

(** Decimal digits of a natural number, least significant first. *)
Fixpoint rev_digits (fuel : nat) (n : N) : jsstring :=
  match fuel with
  | O => []
  | S fuel' =>
      (0x30 + n mod 10) :: (if n <? 10 then [] else rev_digits fuel' (n / 10))
  end.

Definition decimal (n : N) : jsstring :=
  reverse (rev_digits (S (N.to_nat (N.log2 n))) n).

(** [x.toString()] and the conversion used by template literals and [join]. *)
Definition number_toString (x : number) : jsstring :=
  match x with
  | NaN => lit "NaN"
  | Num z => if (z <? 0)%Z then 0x2D :: decimal (Z.to_N (- z))
             else decimal (Z.to_N z)
  end.

Definition nat_toString (n : nat) : jsstring := decimal (N.of_nat n).

(** ** The launcher as a state machine

    Types shared by the two launcher scripts. *)

Inductive signal := SIGTERM.

(** Observable actions, in program order. *)
Inductive effect :=
| ConsoleLog (s : jsstring)
| ConsoleWarn (s : jsstring)
| ConsoleError (s : jsstring)
| Spawn (child : nat) (command : jsstring) (argv : list jsstring)
        (env : gmap jsstring jsstring) (stdio : jsstring)
| Kill (child : nat) (sig : signal)
| SetTimeout (ms : N)
| ProcessExit (code : Z).

(** An element [{ port, process }] of the [processes] array; a child process
    object is identified by its handle, the number of children spawned before
    it. *)
Module Entry.
Record t := { port : number; process : nat }.
End Entry.
Abbreviation entry := Entry.t.

Record launcher := {
  penv : gmap jsstring jsstring;   (* process.env *)
  processes : list entry;          (* const processes *)
  spawned : nat;                   (* children created so far *)
  out : list effect                (* effects performed so far *)
}.

Definition initial (e : gmap jsstring jsstring) : launcher :=
  {| penv := e; processes := []; spawned := 0%nat; out := [] |}.

Definition emit (e : effect) (st : launcher) : launcher :=
  {| penv := penv st; processes := processes st; spawned := spawned st;
     out := out st ++ [e] |}.

Definition log (s : jsstring) : launcher -> launcher := emit (ConsoleLog s).

Definition set_processes (ps : list entry) (st : launcher) : launcher :=
  {| penv := penv st; processes := ps; spawned := spawned st; out := out st |}.

(** [spawn(cmd, argv, { env, stdio })]: a new child object. *)
Definition spawn (command : jsstring) (argv : list jsstring)
    (env : gmap jsstring jsstring) (stdio : jsstring)
    (st : launcher) : nat * launcher :=
  (spawned st,
   {| penv := penv st; processes := processes st; spawned := S (spawned st);
      out := out st ++ [Spawn (spawned st) command argv env stdio] |}).

(** [arr.findIndex(p)]; [None] is the source's [-1]. *)
Definition findIndex {A} (P : A -> Prop) `{forall x, Decision (P x)}
    (l : list A) : option nat :=
  fst <$> list_find P l.

(** [arr.includes(x)] *)
Definition arr_includes (x : jsstring) (l : list jsstring) : bool :=
  bool_decide (x ∈ l).

(** [`${code}`] for an exit code, [null] when the child was killed by a
    signal. *)
Definition code_toString (code : option Z) : jsstring :=
  match code with
  | Some z => number_toString (Num z)
  | None => lit "null"
  end.

Definition nl : jsstring := [0x0A].
Definition rocket : jsstring := [0xD83D; 0xDE80].
Definition antenna : jsstring := [0xD83D; 0xDCE1].
Definition stop_sign : jsstring := [0xD83D; 0xDED1].
Definition check_mark : jsstring := [0x2705].
Definition bulb : jsstring := [0xD83D; 0xDCA1].
Definition clipboard : jsstring := [0xD83D; 0xDCCB].
Definition memo : jsstring := [0xD83D; 0xDCDD].
Definition cross_mark : jsstring := [0x274C].
Definition warning_sign : jsstring := [0x26A0; 0xFE0F].

(** The tag [`[Port ${port}] `] put in front of forwarded output. *)
Definition port_tag (p : number) : jsstring :=
  lit "[Port " ++ number_toString p ++ lit "] ".

(** ** The basic launcher *)

Module MultiPort.

Definition DEFAULT_PORTS : list number := [Num 3000; Num 3001; Num 3002; Num 3003].

Definition help (args : list jsstring) : bool :=
  arr_includes (lit "--help") args || arr_includes (lit "-h") args.

Definition usage : jsstring :=
  nl ++ rocket ++ join nl [
    lit " Multi-Port Server Launcher";
    lit "";
    lit "Usage: bun run multi-port.ts [options] [ports...]";
    lit "";
    lit "Options:";
    lit "  --help, -h          Show this help message";
    lit "  --ports <list>      Comma-separated list of ports (e.g., --ports 3000,3001,3002)";
    lit "  --default           Use default ports (3000, 3001, 3002, 3003)";
    lit "";
    lit "Examples:";
    lit "  bun run multi-port.ts                    # Use default ports";
    lit "  bun run multi-port.ts 3000 3001 3002     # Use specific ports";
    lit "  bun run multi-port.ts --ports 3000,3001  # Use comma-separated ports";
    lit "  bun run multi-port.ts --default          # Explicitly use default ports";
    lit "";
    lit "Note: Each server instance will run independently with hot reloading enabled.";
    lit ""
  ].

(** The loop over the individual arguments: every argument that does not
    start with two dashes is parsed, and kept unless the result is [NaN]. *)
Fixpoint positional (args : list jsstring) : list number :=
  match args with
  | [] => []
  | arg :: rest =>
      if negb (startsWith arg (lit "--")) then
        let port := parseInt arg in
        if negb (isNaN port) then port :: positional rest else positional rest
      else positional rest
  end.

(** The value after [--ports]: split on commas, trim and parse every piece,
    keep what is not [NaN]. *)
Definition from_list (portsString : jsstring) : list number :=
  let parsedPorts := map (fun p => parseInt (trim p)) (split comma portsString) in
  filter (fun p => isNaN p = false) parsedPorts.

(** "Parse ports from arguments": the array [ports] before the fallback. *)
Definition parse (args : list jsstring) : list number :=
  if arr_includes (lit "--default") args then DEFAULT_PORTS
  else
    match findIndex (fun arg => arg = lit "--ports") args with
    | Some portsIndex =>
        match args !! (portsIndex + 1)%nat with
        | Some portsString => from_list portsString
        | None => positional args
        end
    | None => positional args
    end.

(** "If no ports specified, use defaults". *)
Definition ports (args : list jsstring) : list number :=
  let ports := parse args in
  if (length ports =? 0)%nat then DEFAULT_PORTS else ports.

Definition banner (ports : list number) : jsstring :=
  rocket ++ lit " Starting " ++ nat_toString (length ports)
  ++ lit " server instance(s) on ports: "
  ++ join (lit ", ") (map number_toString ports) ++ nl.

Definition startServer (port : number) (st : launcher) : launcher :=
  let st := log (antenna ++ lit " Starting server on port "
                 ++ number_toString port ++ lit "...") st in
  let '(child, st) :=
    spawn (lit "bun") [lit "--hot"; lit "src/index.tsx"]
          (<[lit "PORT" := number_toString port]> (penv st)) (lit "pipe") st in
  set_processes (processes st ++ [{| Entry.port := port; Entry.process := child |}]) st.

(** The listeners that [startServer port] puts on its child. *)

Definition on_stdout (port : number) (data : jsstring) (st : launcher) : launcher :=
  let output := data in
  if includes output (lit "Server running") || includes output (lit "error")
     || includes output (lit "Error")
  then log (port_tag port ++ trim output) st
  else st.

Definition on_stderr (port : number) (data : jsstring) (st : launcher) : launcher :=
  let output := data in
  log (port_tag port ++ trim output) st.

Definition on_exit (port : number) (code : option Z) (st : launcher) : launcher :=
  let st := log (port_tag port ++ lit "Server stopped with code "
                 ++ code_toString code) st in
  match findIndex (fun p => strict_eq (Entry.port p) port = true)
                  (processes st) with
  | Some index => set_processes (delete index (processes st)) st
  | None => st
  end.

(** Listeners of the launcher process itself. *)

Definition on_SIGINT (st : launcher) : launcher :=
  let st := log (nl ++ stop_sign ++ lit " Shutting down all servers...") st in
  let st :=
    foldl (fun st e =>
             let st := log (port_tag (Entry.port e) ++ lit "Stopping server...") st in
             emit (Kill (Entry.process e) SIGTERM) st)
          st (processes st) in
  emit (SetTimeout 1000) st.

Definition on_timeout (st : launcher) : launcher :=
  let st := log (check_mark ++ lit " All servers stopped") st in
  emit (ProcessExit 0) st.

Definition on_SIGTERM (st : launcher) : launcher :=
  let st := log (nl ++ stop_sign ++ lit " Received SIGTERM, shutting down...") st in
  let st := foldl (fun st e => emit (Kill (Entry.process e) SIGTERM) st) st (processes st) in
  emit (ProcessExit 0) st.

(** The script from top to bottom. *)
Definition main (env : gmap jsstring jsstring) (args : list jsstring) : launcher :=
  let st := initial env in
  if help args then emit (ProcessExit 0) (log usage st)
  else
    let ports := ports args in
    let st := log (banner ports) st in
    let st := foldl (fun st port => startServer port st) st ports in
    log (bulb ++ lit " Press Ctrl+C to stop all servers" ++ nl) st.

End MultiPort.

(** ** The config-based launcher *)

Module MultiPortConfig.

(** A profile of ports.config.json. *)
Record profile := {
  profile_ports : option (list Z);        (* profile.ports *)
  description : option jsstring           (* profile.description *)
}.

(** The parsed configuration object [portConfig]: the [defaultPorts] array
    and the profiles, in the order of [Object.entries]. *)
Record port_config := {
  defaultPorts : option (list Z);
  profiles : list (jsstring * profile)
}.

(** What the launcher finds at [ports.config.json]. *)
Inductive config_file :=
| Missing                      (* existsSync is false *)
| Unreadable                   (* JSON.parse throws *)
| Parsed (c : port_config).

Definition empty_config : port_config :=
  {| defaultPorts := None; profiles := [] |}.

(** "Load port configuration" *)
Definition load (file : config_file) (st : launcher) : port_config * launcher :=
  match file with
  | Missing => (empty_config, st)
  | Unreadable =>
      (empty_config,
       emit (ConsoleWarn (warning_sign
               ++ lit "  Could not load ports.config.json, using defaults")) st)
  | Parsed c => (c, st)
  end.

(** [portConfig[name]] as far as it is a profile object: the [defaultPorts]
    array and the properties every object inherits have no [ports]. *)
Fixpoint assoc (name : jsstring) (l : list (jsstring * profile)) : option profile :=
  match l with
  | [] => None
  | (k, v) :: rest => if decide (k = name) then Some v else assoc name rest
  end.

Definition get_profile (portConfig : port_config) (name : jsstring) : option profile :=
  if decide (name = lit "defaultPorts") then None
  else assoc name (profiles portConfig).

Definition numbers (l : list Z) : list number := map Num l.

Definition help (args : list jsstring) : bool :=
  arr_includes (lit "--help") args || arr_includes (lit "-h") args.

Definition listProfiles (args : list jsstring) : bool :=
  arr_includes (lit "--list") args || arr_includes (lit "-l") args.

(** [portConfig.<name>?.ports?.join(", ") || fallback] *)
Definition ports_or (portConfig : port_config) (name : string)
    (fallback : string) : jsstring :=
  match get_profile portConfig (lit name) with
  | Some {| profile_ports := Some ps |} =>
      match join (lit ", ") (map number_toString (numbers ps)) with
      | [] => lit fallback
      | s => s
      end
  | _ => lit fallback
  end.

Definition usage (portConfig : port_config) : jsstring :=
  nl ++ rocket ++ join nl [
    lit " Multi-Port Server Launcher (Config-based)";
    lit "";
    lit "Usage: bun run multi-port-config.ts [options] [profile|ports...]";
    lit "";
    lit "Options:";
    lit "  --help, -h          Show this help message";
    lit "  --list, -l          List available profiles";
    lit "  --profile <name>    Use a specific profile from ports.config.json";
    lit "  --ports <list>      Comma-separated list of ports (e.g., --ports 3000,3001,3002)";
    lit "";
    lit "Profiles:";
    lit "  development         Default development servers (ports: "
      ++ ports_or portConfig "development" "3000,3001,3002,3003" ++ lit ")";
    lit "  testing            Testing servers (ports: "
      ++ ports_or portConfig "testing" "4000,4001,4002" ++ lit ")";
    lit "  staging            Staging servers (ports: "
      ++ ports_or portConfig "staging" "5000,5001" ++ lit ")";
    lit "";
    lit "Examples:";
    lit "  bun run multi-port-config.ts                    # Use development profile";
    lit "  bun run multi-port-config.ts --profile testing  # Use testing profile";
    lit "  bun run multi-port-config.ts 3000 3001 3002     # Use specific ports";
    lit "  bun run multi-port-config.ts --ports 3000,3001  # Use comma-separated ports";
    lit "  bun run multi-port-config.ts --list             # List available profiles";
    lit "";
    lit "Note: Each server instance will run independently with hot reloading enabled.";
    lit ""
  ].

(** The two lines printed for one profile by [--list]. *)
Definition list_entry (name : jsstring) (p : profile) (st : launcher) : launcher :=
  let st := log (lit "  " ++ padEnd 12 name ++ lit " - "
                 ++ match description p with
                    | Some (c :: d) => c :: d
                    | _ => lit "No description"
                    end) st in
  log (lit "  " ++ padEnd 12 [] ++ lit "   Ports: "
       ++ match profile_ports p with
          | Some ps =>
              match join (lit ", ") (map number_toString (numbers ps)) with
              | [] => lit "Not configured"
              | s => s
              end
          | None => lit "Not configured"
          end ++ nl) st.

Definition list_all (portConfig : port_config) (st : launcher) : launcher :=
  let st := log (clipboard ++ lit " Available profiles:" ++ nl) st in
  foldl (fun st '(name, p) =>
           if decide (name = lit "defaultPorts") then st else list_entry name p st)
        st (profiles portConfig).

Fixpoint positional (args : list jsstring) : list number :=
  match args with
  | [] => []
  | arg :: rest =>
      if negb (startsWith arg (lit "--")) then
        let port := parseInt arg in
        if negb (isNaN port) then port :: positional rest else positional rest
      else positional rest
  end.

Definition from_list (portsString : jsstring) : list number :=
  let parsedPorts := map (fun p => parseInt (trim p)) (split comma portsString) in
  filter (fun p => isNaN p = false) parsedPorts.

(** The [else] branch of the profile test: [--ports], or the individual
    arguments. *)
Definition parse (args : list jsstring) : list number :=
  match findIndex (fun arg => arg = lit "--ports") args with
  | Some portsIndex =>
      match args !! (portsIndex + 1)%nat with
      | Some portsString => from_list portsString
      | None => positional args
      end
  | None => positional args
  end.

(** "Determine which ports to use", up to the fallback: [None] when the
    launcher leaves with [process.exit(1)]. *)
Definition determine (portConfig : port_config) (args : list jsstring)
    (st : launcher) : option (list number) * launcher :=
  let by_arguments := (Some (parse args), st) in
  match findIndex (fun arg => arg = lit "--profile") args with
  | Some profileIndex =>
      match args !! (profileIndex + 1)%nat with
      | Some profileName =>
          match get_profile portConfig profileName with
          | Some {| profile_ports := Some ps; description := d |} =>
              let st := log (clipboard ++ lit " Using profile: " ++ profileName) st in
              let st := match d with
                        | Some (c :: d') => log (memo ++ lit " " ++ (c :: d') ++ nl) st
                        | _ => st
                        end in
              (Some (numbers ps), st)
          | _ =>
              let st := emit (ConsoleError (cross_mark ++ lit " Profile '" ++ profileName
                                            ++ lit "' not found in ports.config.json")) st in
              (None, emit (ProcessExit 1) st)
          end
      | None => by_arguments
      end
  | None => by_arguments
  end.

(** "If no ports specified, use development profile or defaults" *)
Definition fallback (portConfig : port_config) (ports : list number)
    (st : launcher) : list number * launcher :=
  if (length ports =? 0)%nat then
    match get_profile portConfig (lit "development") with
    | Some {| profile_ports := Some ps |} =>
        (numbers ps, log (clipboard ++ lit " Using development profile (default)") st)
    | _ =>
        (match defaultPorts portConfig with
         | Some ps => numbers ps
         | None => [Num 3000; Num 3001; Num 3002; Num 3003]
         end,
         log (clipboard ++ lit " Using default ports") st)
    end
  else (ports, st).

(** The final value of the variable [ports], if the launcher gets that far. *)
Definition ports (portConfig : port_config) (args : list jsstring)
    : option (list number) :=
  match fst (determine portConfig args (initial ∅)) with
  | Some ps => Some (fst (fallback portConfig ps (initial ∅)))
  | None => None
  end.

Definition banner (ports : list number) : jsstring :=
  rocket ++ lit " Starting " ++ nat_toString (length ports)
  ++ lit " server instance(s) on ports: "
  ++ join (lit ", ") (map number_toString ports) ++ nl.

Definition startServer (port : number) (st : launcher) : launcher :=
  let st := log (antenna ++ lit " Starting server on port "
                 ++ number_toString port ++ lit "...") st in
  let '(child, st) :=
    spawn (lit "bun") [lit "--hot"; lit "src/index.tsx"]
          (<[lit "PORT" := number_toString port]> (penv st)) (lit "pipe") st in
  set_processes (processes st ++ [{| Entry.port := port; Entry.process := child |}]) st.

Definition on_stdout (port : number) (data : jsstring) (st : launcher) : launcher :=
  let output := data in
  if includes output (lit "Server running") || includes output (lit "error")
     || includes output (lit "Error")
  then log (port_tag port ++ trim output) st
  else st.

Definition on_stderr (port : number) (data : jsstring) (st : launcher) : launcher :=
  let output := data in
  log (port_tag port ++ trim output) st.

Definition on_exit (port : number) (code : option Z) (st : launcher) : launcher :=
  let st := log (port_tag port ++ lit "Server stopped with code "
                 ++ code_toString code) st in
  match findIndex (fun p => strict_eq (Entry.port p) port = true)
                  (processes st) with
  | Some index => set_processes (delete index (processes st)) st
  | None => st
  end.

Definition on_SIGINT (st : launcher) : launcher :=
  let st := log (nl ++ stop_sign ++ lit " Shutting down all servers...") st in
  let st :=
    foldl (fun st e =>
             let st := log (port_tag (Entry.port e) ++ lit "Stopping server...") st in
             emit (Kill (Entry.process e) SIGTERM) st)
          st (processes st) in
  emit (SetTimeout 1000) st.

Definition on_timeout (st : launcher) : launcher :=
  let st := log (check_mark ++ lit " All servers stopped") st in
  emit (ProcessExit 0) st.

Definition on_SIGTERM (st : launcher) : launcher :=
  let st := log (nl ++ stop_sign ++ lit " Received SIGTERM, shutting down...") st in
  let st := foldl (fun st e => emit (Kill (Entry.process e) SIGTERM) st) st (processes st) in
  emit (ProcessExit 0) st.

(** The script from top to bottom. *)
Definition main (file : config_file) (env : gmap jsstring jsstring)
    (args : list jsstring) : launcher :=
  let '(portConfig, st) := load file (initial env) in
  if help args then emit (ProcessExit 0) (log (usage portConfig) st)
  else if listProfiles args then emit (ProcessExit 0) (list_all portConfig st)
  else
    match determine portConfig args st with
    | (None, st) => st
    | (Some ports, st) =>
        let '(ports, st) := fallback portConfig ports st in
        let st := log (banner ports) st in
        let st := foldl (fun st port => startServer port st) st ports in
        log (bulb ++ lit " Press Ctrl+C to stop all servers" ++ nl) st
    end.

End MultiPortConfig.

(** ** The launcher and its children over time *)

(** The listeners of a launcher script. *)
Record script := {
  stdout_data : number -> jsstring -> launcher -> launcher;
  stderr_data : number -> jsstring -> launcher -> launcher;
  child_exit : number -> option Z -> launcher -> launcher;
  sigint : launcher -> launcher;
  sigterm : launcher -> launcher;
  timeout : launcher -> launcher
}.

Definition basic : script :=
  {| stdout_data := MultiPort.on_stdout; stderr_data := MultiPort.on_stderr;
     child_exit := MultiPort.on_exit; sigint := MultiPort.on_SIGINT;
     sigterm := MultiPort.on_SIGTERM; timeout := MultiPort.on_timeout |}.

Definition config_based : script :=
  {| stdout_data := MultiPortConfig.on_stdout; stderr_data := MultiPortConfig.on_stderr;
     child_exit := MultiPortConfig.on_exit; sigint := MultiPortConfig.on_SIGINT;
     sigterm := MultiPortConfig.on_SIGTERM; timeout := MultiPortConfig.on_timeout |}.

(** The launcher together with its children as the event loop sees them:
    [running] lists the children that were spawned and whose exit has not
    been delivered yet, each with the port its listeners closed over. *)
Record world := {
  st : launcher;
  running : list (nat * number)
}.

(** Right after the script has run, every child it spawned is running: no
    event is delivered before the script is through. *)
Definition boot (s : launcher) : world :=
  {| st := s;
     running := map (fun e => (Entry.process e, Entry.port e)) (processes s) |}.

(** One turn of the event loop.  A child started on port [p] delivers a chunk
    of output (its pipes may outlive it, so this is not tied to [running]);
    a running child exits, and is no longer running; the launcher receives a
    signal; its timer fires.  Turns after a [process.exit] are harmless extra
    behaviour of the model. *)
Inductive step (s : script) : world -> world -> Prop :=
| step_stdout w p data :
    step s w {| st := stdout_data s p data (st w); running := running w |}
| step_stderr w p data :
    step s w {| st := stderr_data s p data (st w); running := running w |}
| step_exit w i c p code :
    running w !! i = Some (c, p) ->
    step s w {| st := child_exit s p code (st w); running := delete i (running w) |}
| step_sigint w :
    step s w {| st := sigint s (st w); running := running w |}
| step_sigterm w :
    step s w {| st := sigterm s (st w); running := running w |}
| step_timeout w :
    step s w {| st := timeout s (st w); running := running w |}.

(** Projections of the effect trace. *)
Definition kills (es : list effect) : list (nat * signal) :=
  omap (fun e => match e with Kill c sig => Some (c, sig) | _ => None end) es.

Definition spawn_ports (es : list effect) : list (option jsstring) :=
  omap (fun e => match e with
                 | Spawn _ _ _ env _ => Some (env !! lit "PORT")
                 | _ => None
                 end) es.


(** ** The server *)

Module Server.

(** The body of a [Response.json({ ... })]: the properties of the object
    in order, each value as [JSON.stringify] keeps it, where a [NaN] becomes
    [null]. *)
Inductive value :=
| JNull
| JNumber (z : Z)
| JString (s : jsstring).

Abbreviation json := (list (jsstring * value)).

Definition of_number (x : number) : value :=
  match x with NaN => JNull | Num z => JNumber z end.

Fixpoint get (k : jsstring) (fields : json) : option value :=
  match fields with
  | [] => None
  | (k', v) :: rest => if decide (k' = k) then Some v else get k rest
  end.

(** [parseInt(process.env.PORT || "3000", 10)] *)
Definition port (env : gmap jsstring jsstring) : number :=
  parseInt (match env !! lit "PORT" with
            | Some (c :: s) => c :: s
            | _ => lit "3000"
            end).

Inductive method := GET | HEAD | POST | PUT | DELETE | PATCH | OPTIONS.

Record request := { params : gmap jsstring jsstring }.

(** [`${req.params.name}`] *)
Definition name_of (req : request) : jsstring :=
  default (lit "undefined") (params req !! lit "name").

Definition hello_GET (port : number) (req : request) : json :=
  [(lit "message", JString (lit "Hello, world!"));
   (lit "method", JString (lit "GET"));
   (lit "port", of_number port)].

Definition hello_PUT (port : number) (req : request) : json :=
  [(lit "message", JString (lit "Hello, world!"));
   (lit "method", JString (lit "PUT"));
   (lit "port", of_number port)].

Definition hello_name (port : number) (req : request) : json :=
  let name := name_of req in
  [(lit "message", JString (lit "Hello, " ++ name ++ lit "!"));
   (lit "port", of_number port)].

(** What a key of [routes] maps to. *)
Inductive route :=
| Bundle                                           (* the imported index.html *)
| PerMethod (handlers : list (method * (request -> json)))
| AnyMethod (handler : request -> json).

Definition routes (port : number) : list (jsstring * route) :=
  [ (lit "/*", Bundle);
    (lit "/api/hello", PerMethod [(GET, hello_GET port); (PUT, hello_PUT port)]);
    (lit "/api/hello/:name", AnyMethod (hello_name port)) ].

(** The handlers of a route table that answer with JSON, each with its path
    pattern and the method it is restricted to ([None]: every method). *)
Definition json_handlers (table : list (jsstring * route))
    : list (option method * jsstring * (request -> json)) :=
  flat_map (fun '(path, r) =>
              match r with
              | Bundle => []
              | PerMethod hs => map (fun '(m, h) => (Some m, path, h)) hs
              | AnyMethod h => [(None, path, h)]
              end) table.

(** The line the server prints once it listens,
    [`🚀 Server running at ${server.url} (Port: ${port})`]; [url] is the
    printed [server.url]. *)
Definition startup_line (url : jsstring) (port : number) : jsstring :=
  rocket ++ lit " Server running at " ++ url
  ++ lit " (Port: " ++ number_toString port ++ lit ")".

End Server.

(** ** Notions used in the statements *)

(** A number other than [NaN]. *)
Definition real (p : number) : Prop := p <> NaN.


(** The [PORT] entry of the environment of a child started on [p]. *)
Definition printed (p : number) : option jsstring := Some (number_toString p).

(** "Start all servers": the loop over [ports]. *)
Definition start_all (s : launcher) (ports : list number) : launcher :=
  foldl (fun st port => MultiPort.startServer port st) s ports.

(** The value of [portConfig] once the file has been looked at. *)
Definition config_of (file : MultiPortConfig.config_file) : MultiPortConfig.port_config :=
  match file with
  | MultiPortConfig.Parsed c => c
  | _ => MultiPortConfig.empty_config
  end.

(** The ports a run of the config-based launcher gets to start. *)
Definition config_run_ports (file : MultiPortConfig.config_file)
    (args : list jsstring) : list number :=
  if MultiPortConfig.help args || MultiPortConfig.listProfiles args then []
  else default [] (MultiPortConfig.ports (config_of file) args).

(** What a listener [h] does when it runs in state [s]. *)
Definition performed (h : launcher -> launcher) (s : launcher) : list effect :=
  drop (length (out s)) (out (h s)).

(** The chunks of standard output that are shown. *)
Definition relevant (output : jsstring) : bool :=
  includes output (lit "Server running") || includes output (lit "error")
  || includes output (lit "Error").

(** What the SIGINT listener does for one entry. *)
Definition stopping (e : entry) : list effect :=
  [ConsoleLog (port_tag (Entry.port e) ++ lit "Stopping server...");
   Kill (Entry.process e) SIGTERM].

(** [findIndex] followed by [splice(index, 1)]. *)
Definition forget (port : number) (ps : list entry) : list entry :=
  match findIndex (fun p => strict_eq (Entry.port p) port = true) ps with
  | Some index => delete index ps
  | None => ps
  end.

(** The ports in [processes] are, up to order, the ports of the children
    that are running, and none of them is [NaN]. *)
Definition tracked (w : world) : Prop :=
  map Entry.port (processes (st w)) ≡ₚ map snd (running w)
  /\ Forall (fun cp => real (snd cp)) (running w).

(** A port read from the command line: an argument parsed as a number, or a
    comma-separated piece of the value that follows [--ports]. *)
Inductive from_arguments (args : list jsstring) (p : number) : Prop :=
| from_token arg :
    arg ∈ args -> parseInt arg = p -> from_arguments args p
| from_ports_flag i portsString item :
    args !! i = Some (lit "--ports") -> args !! S i = Some portsString ->
    item ∈ split comma portsString -> parseInt (trim item) = p ->
    from_arguments args p.

(** A port of the profile that [--profile] names. *)
Inductive from_profile (cfg : MultiPortConfig.port_config)
    (args : list jsstring) (p : number) : Prop :=
| from_named i name prof ps z :
    args !! i = Some (lit "--profile") -> args !! S i = Some name ->
    MultiPortConfig.get_profile cfg name = Some prof ->
    MultiPortConfig.profile_ports prof = Some ps ->
    z ∈ ps -> p = Num z ->
    from_profile cfg args p.

(** A port of the defaults the config-based launcher falls back to. *)
Inductive from_defaults (cfg : MultiPortConfig.port_config) (p : number) : Prop :=
| from_development prof ps z :
    MultiPortConfig.get_profile cfg (lit "development") = Some prof ->
    MultiPortConfig.profile_ports prof = Some ps ->
    z ∈ ps -> p = Num z -> from_defaults cfg p
| from_defaultPorts ps z :
    MultiPortConfig.defaultPorts cfg = Some ps ->
    z ∈ ps -> p = Num z -> from_defaults cfg p
| from_built_in :
    p ∈ [Num 3000; Num 3001; Num 3002; Num 3003] -> from_defaults cfg p.

(** The configured port as the specification words it: [parseInt] of
    [PORT], or 3000 when [PORT] is unset.  To be compared with
    [Server.port]. *)
Definition stated_port (env : gmap jsstring jsstring) : number :=
  match env !! lit "PORT" with
  | Some s => parseInt s
  | None => Num 3000
  end.

(** The flags that only one of the launchers, or neither port list, knows. *)
Definition launcher_flags : list jsstring :=
  [lit "--default"; lit "--profile"; lit "--help"; lit "-h"; lit "--list"; lit "-l"].

(** A launcher right after its script has run. *)
Inductive started : launcher -> Prop :=
| started_basic env args : started (MultiPort.main env args)
| started_config file env args : started (MultiPortConfig.main file env args).

(** The arguments yield no port: nothing read from them is a number. *)
Definition no_valid_port (args : list jsstring) : Prop :=
  forall p, from_arguments args p -> p = NaN.

(** Printed numbers contain neither white space nor commas. *)
Definition plain (c : N) : Prop := is_whitespace c = false /\ (c =? comma) = false.

(** The numbers on which the embedding and the IEEE doubles of the source
    agree as they pass through [parseInt] and [toString]: [NaN] and the
    integers of magnitude at most 2^53. *)
Definition exact (p : number) : Prop :=
  match p with
  | NaN => True
  | Num z => (Z.abs z <= 2 ^ 53)%Z
  end.

(** The [spawn] of [startServer port] when [child] is the next handle and
    [env] the environment of the launcher, and the two effects of
    [startServer port]. *)
Definition spawning (env : gmap jsstring jsstring) (child : nat)
    (port : number) : effect :=
  Spawn child (lit "bun") [lit "--hot"; lit "src/index.tsx"]
        (<[lit "PORT" := number_toString port]> env) (lit "pipe").

Definition starting (env : gmap jsstring jsstring) (child : nat)
    (port : number) : list effect :=
  [ConsoleLog (antenna ++ lit " Starting server on port "
               ++ number_toString port ++ lit "...");
   spawning env child port].

(** More projections of the effect trace: the spawns, the environment a
    spawn gives its child, and the exit codes. *)
Definition spawns (es : list effect) : list effect :=
  omap (fun e => match e with
                 | Spawn _ _ _ _ _ => Some e
                 | _ => None
                 end) es.

Definition child_env (e : effect) : gmap jsstring jsstring :=
  match e with Spawn _ _ _ env _ => env | _ => ∅ end.

Definition exits (es : list effect) : list Z :=
  omap (fun e => match e with ProcessExit code => Some code | _ => None end) es.

(** Effects that neither create nor signal a child. *)
Definition silent (e : effect) : bool :=
  match e with Spawn _ _ _ _ _ | Kill _ _ => false | _ => true end.

(** [s'] is [s] after some silent effects. *)
Definition quiet (s s' : launcher) : Prop :=
  penv s' = penv s /\ processes s' = processes s /\ spawned s' = spawned s
  /\ exists es, out s' = out s ++ es /\ Forall (fun e => silent e = true) es.

(** The entry pushed for the child with handle [child] started on [port]. *)
Definition entry_of (child : nat) (port : number) : entry :=
  {| Entry.port := port; Entry.process := child |}.

(** [s'] is [s] after some more effects, all of them in [P]. *)
Definition adds (P : effect -> Prop) (s s' : launcher) : Prop :=
  exists es, out s' = out s ++ es /\ Forall P es.

(** Console output that is not an error. *)
Definition printing (e : effect) : Prop :=
  match e with ConsoleLog _ | ConsoleWarn _ => True | _ => False end.

(** The first [--profile] that has a value names no profile with ports. *)
Definition unknown_profile (cfg : MultiPortConfig.port_config)
    (args : list jsstring) (name : jsstring) : Prop :=
  exists i,
    findIndex (fun arg => arg = lit "--profile") args = Some i
    /\ args !! S i = Some name
    /\ forall prof, MultiPortConfig.get_profile cfg name = Some prof ->
                    MultiPortConfig.profile_ports prof = None.

(** Integers printed as command-line arguments. *)
Definition tokens (zs : list Z) : list jsstring :=
  map (fun z => number_toString (Num z)) zs.

(** [parseInt] after its first step, the removal of leading white space. *)
Definition parse_trimmed (S0 : jsstring) : number :=
  let sign : Z := match S0 with
                  | c :: _ => if c =? 0x2D then (-1)%Z else 1%Z
                  | [] => 1%Z
                  end in
  let S := match S0 with
           | c :: r => if (c =? 0x2B) || (c =? 0x2D) then r else S0
           | [] => S0
           end in
  match digits_prefix S with
  | [] => NaN
  | ds => Num (sign * Z.of_N (mathInt ds))
  end.

(** A string of white space. *)
Definition blank (s : jsstring) : Prop := Forall (fun c => is_whitespace c = true) s.

(** A string without a comma. *)
Definition comma_free (s : jsstring) : Prop :=
  Forall (fun c => (c =? comma) = false) s.

(** What the SIGTERM listener does for one entry. *)
Definition terminating (e : entry) : effect := Kill (Entry.process e) SIGTERM.

(** An effect other than a spawn. *)
Definition no_spawn (e : effect) : Prop :=
  match e with Spawn _ _ _ _ _ => False | _ => True end.

(** A listener that starts nothing and only ever drops entries. *)
Definition passive (h : launcher -> launcher) : Prop :=
  forall s, processes (h s) `sublist_of` processes s /\ adds no_spawn s (h s).

(** The running child an entry stands for. *)
Definition as_child (e : entry) : nat * number := (Entry.process e, Entry.port e).

(** [processes] lists exactly the running children, in order; the ports are
    pairwise different numbers. *)
Definition mirrored (w : world) : Prop :=
  running w = map as_child (processes (st w))
  /\ NoDup (map Entry.port (processes (st w)))
  /\ Forall real (map Entry.port (processes (st w))).

(** [s] with the effects [pre] performed first. *)
Definition after (pre : list effect) (s : launcher) : launcher :=
  {| penv := penv s; processes := processes s; spawned := spawned s;
     out := pre ++ out s |}.

(** The children a trace has spawned: each handle with the [PORT] its
    environment holds. *)
Definition spawned_children (es : list effect) : list (nat * option jsstring) :=
  omap (fun e => match e with
                 | Spawn child _ _ env _ => Some (child, env !! lit "PORT")
                 | _ => None
                 end) es.

(** A running child as the trace shows it: its handle and its [PORT]. *)
Definition as_spawned (child : nat * number) : nat * option jsstring :=
  (fst child, printed (snd child)).

(** The port specification of an argument list, read off the arguments: the
    comma-separated pieces of the value that follows the first [--ports],
    or, when no [--ports] is followed by a value, the arguments themselves.
    [specified args p]: the specification yields the port [p]. *)
Inductive specified (args : list jsstring) (p : number) : Prop :=
| in_ports_value pre value post item :
    args = pre ++ lit "--ports" :: value :: post ->
    lit "--ports" ∉ pre ->
    item ∈ split comma value -> parseInt (trim item) = p ->
    specified args p
| as_argument arg :
    (forall i, args !! i = Some (lit "--ports") -> args !! S i = None) ->
    arg ∈ args -> parseInt arg = p ->
    specified args p.

(** The configured port as the amended C10 words it: [parseInt] of [PORT]
    when [PORT] is set and not empty, 3000 when it is unset or empty.  To be
    compared with [Server.port]. *)
Definition configured_port (env : gmap jsstring jsstring) : number :=
  match env !! lit "PORT" with
  | Some (c :: s) => parseInt (c :: s)
  | _ => Num 3000
  end.

(** * Properties *)

(** ** Printing and parsing numbers *)

Section Numbers.

Lemma digit_plain c :
  is_digit c = true ->
  is_whitespace c = false /\ (c =? 0x2B) = false /\ (c =? 0x2D) = false.
Proof.
  unfold is_digit, is_whitespace. rewrite andb_true_iff, !N.leb_le.
  intros [Hlo Hhi].
  repeat match goal with
  | |- context [?x =? ?k] =>
      replace (x =? k) with false by (symmetry; apply N.eqb_neq; lia)
  end.
  replace (0x2000 <=? c) with false by (symmetry; apply N.leb_gt; lia).
  done.
Qed.

Lemma digits_prefix_all ds :
  Forall (fun c => is_digit c = true) ds -> digits_prefix ds = ds.
Proof.
  induction 1 as [|c ds Hc _ IH]; simpl; [done|]. by rewrite Hc, IH.
Qed.

Lemma mathInt_snoc ds c : mathInt (ds ++ [c]) = 10 * mathInt ds + (c - 0x30).
Proof. unfold mathInt. by rewrite foldl_app. Qed.

Lemma rev_digits_spec fuel n :
  n < 2 ^ N.of_nat fuel ->
  Forall (fun c => is_digit c = true) (rev_digits fuel n)
  /\ mathInt (reverse (rev_digits fuel n)) = n.
Proof.
  revert n. induction fuel as [|fuel IH]; intros n Hn.
  - simpl in Hn. assert (n = 0) as -> by lia. done.
  - cbn [rev_digits].
    assert (Hd : is_digit (0x30 + n mod 10) = true).
    { unfold is_digit. assert (n mod 10 < 10) by (apply N.mod_upper_bound; lia).
      generalize dependent (n mod 10). intros r Hr.
      apply andb_true_iff; split; apply N.leb_le; lia. }
    destruct (N.ltb_spec n 10) as [Hlt|Hge].
    + split; [by repeat constructor|].
      rewrite N.mod_small by done. unfold mathInt; simpl. lia.
    + destruct (IH (n / 10)) as [Hall Hval].
      { rewrite Nat2N.inj_succ, N.pow_succ_r' in Hn.
        apply N.Div0.div_lt_upper_bound. lia. }
      split; [by constructor|].
      rewrite reverse_cons, mathInt_snoc, Hval.
      pose proof (N.Div0.div_mod n 10) as Hdm.
      generalize dependent (n / 10). generalize dependent (n mod 10).
      intros; lia.
Qed.

Lemma decimal_spec n :
  Forall (fun c => is_digit c = true) (decimal n)
  /\ mathInt (decimal n) = n /\ decimal n <> [].
Proof.
  unfold decimal.
  destruct (rev_digits_spec (S (N.to_nat (N.log2 n))) n) as [Hall Hval].
  { rewrite Nat2N.inj_succ, N2Nat.id.
    destruct (N.eq_dec n 0) as [->|Hn]; [done|].
    apply N.log2_spec. lia. }
  split; [by apply Forall_reverse|]. split; [done|].
  simpl. intros H%(f_equal length). rewrite length_reverse in H. done.
Qed.

Lemma parseInt_decimal n : parseInt (decimal n) = Num (Z.of_N n).
Proof.
  destruct (decimal_spec n) as (Hall & Hval & Hne).
  destruct (decimal n) as [|c ds] eqn:E; [done|].
  pose proof (Forall_inv Hall) as Hc. simpl in Hc.
  destruct (digit_plain c Hc) as (Hws & Hplus & Hminus).
  unfold parseInt. cbn [trimStart]. rewrite Hws, Hplus, Hminus. cbn [orb].
  rewrite (digits_prefix_all _ Hall), Hval. f_equal. lia.
Qed.

Lemma parseInt_minus ds :
  Forall (fun c => is_digit c = true) ds -> ds <> [] ->
  parseInt (0x2D :: ds) = Num (- Z.of_N (mathInt ds)).
Proof.
  intros Hall Hne. unfold parseInt.
  change (trimStart (0x2D :: ds)) with (0x2D :: ds). cbv beta iota zeta.
  change (0x2D =? 0x2D) with true. change (0x2D =? 0x2B) with false.
  cbn [orb]. rewrite (digits_prefix_all _ Hall).
  destruct ds; [done|]. f_equal; lia.
Qed.

Lemma parseInt_toString x : parseInt (number_toString x) = x.
Proof.
  destruct x as [|z]; [done|]. unfold number_toString.
  destruct (Z.ltb_spec z 0) as [Hneg|Hpos].
  - destruct (decimal_spec (Z.to_N (- z))) as (Hall & Hval & Hne).
    rewrite parseInt_minus, Hval by done. f_equal. lia.
  - rewrite parseInt_decimal. f_equal. lia.
Qed.

Example parseInt_digits : parseInt (lit "3000") = Num 3000.
Proof. reflexivity. Qed.

Example parseInt_prefix : parseInt (lit "  -42px") = Num (-42).
Proof. reflexivity. Qed.

Example parseInt_dashes : parseInt (lit "--3000") = NaN.
Proof. reflexivity. Qed.

Example toString_negative : number_toString (Num (-70000)) = lit "-70000".
Proof. reflexivity. Qed.

Example split_pieces :
  split comma (lit "a,,b,") = [lit "a"; lit ""; lit "b"; lit ""].
Proof. reflexivity. Qed.

Example trim_both : trim (lit "  a b  ") = lit "a b".
Proof. reflexivity. Qed.

Lemma number_toString_inj x y : number_toString x = number_toString y -> x = y.
Proof.
  intros H. rewrite <- (parseInt_toString x), <- (parseInt_toString y).
  by rewrite H.
Qed.

End Numbers.

(** ** Argument parsing *)

Section Parsing.

Lemma flag_not_a_number arg :
  startsWith arg (lit "--") = true -> parseInt arg = NaN.
Proof.
  change (lit "--") with [0x2D; 0x2D].
  destruct arg as [|a [|b r]]; cbn [startsWith];
    rewrite ?andb_true_iff, ?N.eqb_eq;
    [done | intros [_ ?]; done | intros (<- & <- & _); reflexivity].
Qed.

(** The test on the two leading dashes never changes the outcome of the loop:
    such an argument does not parse anyway. *)
Lemma positional_filter args :
  MultiPort.positional args
  = filter (fun p => isNaN p = false) (map parseInt args).
Proof.
  induction args as [|arg rest IH]; [done|].
  cbn [MultiPort.positional map]. rewrite filter_cons, IH.
  destruct (startsWith arg (lit "--")) eqn:E; cbn [negb].
  - rewrite (flag_not_a_number _ E). by rewrite decide_False.
  - destruct (parseInt arg); cbn [isNaN negb].
    + by rewrite decide_False.
    + by rewrite decide_True.
Qed.

Lemma positional_same args :
  MultiPortConfig.positional args = MultiPort.positional args.
Proof. induction args as [|arg rest IH]; [done|]. simpl. by rewrite IH. Qed.

Lemma parse_config_basic args :
  arr_includes (lit "--default") args = false ->
  MultiPortConfig.parse args = MultiPort.parse args.
Proof.
  intros H. unfold MultiPortConfig.parse, MultiPort.parse. rewrite H.
  destruct (findIndex _ args); [|apply positional_same].
  destruct (args !! _); [done|apply positional_same].
Qed.

Lemma real_filter (l : list number) :
  Forall real (filter (fun p => isNaN p = false) l).
Proof.
  apply Forall_forall. intros p [Hp _]%list_elem_of_filter.
  by destruct p.
Qed.

Lemma real_numbers l : Forall real (MultiPortConfig.numbers l).
Proof. apply Forall_fmap, Forall_true. done. Qed.

Lemma real_defaults : Forall real MultiPort.DEFAULT_PORTS.
Proof. by repeat constructor. Qed.

Lemma real_parse args : Forall real (MultiPort.parse args).
Proof.
  unfold MultiPort.parse.
  destruct (arr_includes _ _); [apply real_defaults|].
  destruct (findIndex _ args) as [i|]; [destruct (args !! _)|];
    rewrite ?positional_filter; apply real_filter.
Qed.

Lemma real_parse_config args : Forall real (MultiPortConfig.parse args).
Proof.
  unfold MultiPortConfig.parse.
  destruct (findIndex _ args) as [i|]; [destruct (args !! _)|];
    rewrite ?positional_same, ?positional_filter; apply real_filter.
Qed.

Lemma real_ports args : Forall real (MultiPort.ports args).
Proof.
  unfold MultiPort.ports. destruct (_ =? _)%nat;
    [apply real_defaults|apply real_parse].
Qed.

(** The ports of the config-based launcher do not depend on the state the
    messages go to. *)
Lemma determine_fst cfg args s1 s2 :
  fst (MultiPortConfig.determine cfg args s1)
  = fst (MultiPortConfig.determine cfg args s2).
Proof.
  unfold MultiPortConfig.determine.
  destruct (findIndex _ args); [|done].
  destruct (args !! _); [|done].
  destruct (MultiPortConfig.get_profile _ _) as [[[ps|] d]|]; done.
Qed.

Lemma fallback_fst cfg ps s1 s2 :
  fst (MultiPortConfig.fallback cfg ps s1) = fst (MultiPortConfig.fallback cfg ps s2).
Proof.
  unfold MultiPortConfig.fallback. destruct (_ =? _)%nat; [|done].
  destruct (MultiPortConfig.get_profile _ _) as [[[?|] ?]|]; done.
Qed.

Lemma real_ports_config cfg args ps :
  MultiPortConfig.ports cfg args = Some ps -> Forall real ps.
Proof.
  unfold MultiPortConfig.ports, MultiPortConfig.determine, MultiPortConfig.fallback.
  intros H.
  assert (Hfb : forall qs, Forall real qs ->
    Forall real (fst (MultiPortConfig.fallback cfg qs (initial ∅)))).
  { intros qs Hqs. unfold MultiPortConfig.fallback.
    destruct (_ =? _)%nat; [|done].
    destruct (MultiPortConfig.get_profile _ _) as [[[?|] ?]|]; simpl;
      try apply real_numbers;
      destruct (MultiPortConfig.defaultPorts cfg);
      (apply real_numbers || by repeat constructor). }
  destruct (findIndex _ args) as [i|].
  2:{ simpl in H. injection H as <-. apply Hfb, real_parse_config. }
  destruct (args !! _) as [name|].
  2:{ simpl in H. injection H as <-. apply Hfb, real_parse_config. }
  destruct (MultiPortConfig.get_profile cfg name) as [[[qs|] d]|];
    simpl in H; try done.
  injection H as <-. apply Hfb, real_numbers.
Qed.

End Parsing.

(** ** Starting the servers *)

Section Startup.

Lemma startServer_same : MultiPortConfig.startServer = MultiPort.startServer.
Proof. reflexivity. Qed.

Lemma startServer_processes port s :
  processes (MultiPort.startServer port s)
  = processes s ++ [{| Entry.port := port; Entry.process := spawned s |}].
Proof. reflexivity. Qed.

Lemma startServer_out port s :
  out (MultiPort.startServer port s)
  = out s ++ [ConsoleLog (antenna ++ lit " Starting server on port "
                          ++ number_toString port ++ lit "...");
              Spawn (spawned s) (lit "bun") [lit "--hot"; lit "src/index.tsx"]
                    (<[lit "PORT" := number_toString port]> (penv s)) (lit "pipe")].
Proof. unfold MultiPort.startServer. simpl. by rewrite <- app_assoc. Qed.

Lemma startServer_penv port s : penv (MultiPort.startServer port s) = penv s.
Proof. reflexivity. Qed.

Lemma startServer_spawned port s :
  spawned (MultiPort.startServer port s) = S (spawned s).
Proof. reflexivity. Qed.

Lemma start_all_ports ports : forall s,
  map Entry.port (processes (start_all s ports))
  = map Entry.port (processes s) ++ ports.
Proof.
  induction ports as [|p ports IH]; intros s; simpl.
  - by rewrite app_nil_r.
  - unfold start_all in IH. rewrite IH, startServer_processes, map_app.
    by rewrite <- app_assoc.
Qed.

Lemma spawn_ports_app es es' :
  spawn_ports (es ++ es') = spawn_ports es ++ spawn_ports es'.
Proof. apply omap_app. Qed.

Lemma start_all_spawn_ports ports : forall s,
  spawn_ports (out (start_all s ports))
  = spawn_ports (out s) ++ map printed ports.
Proof.
  induction ports as [|p ports IH]; intros s; simpl.
  - by rewrite app_nil_r.
  - unfold start_all in IH. rewrite IH, startServer_out, spawn_ports_app.
    change (spawn_ports [_; Spawn _ _ _ ?e _]) with [e !! lit "PORT"].
    rewrite lookup_insert_eq. by rewrite <- app_assoc.
Qed.



Lemma spawn_ports_snoc_log s es :
  spawn_ports (es ++ [ConsoleLog s]) = spawn_ports es.
Proof. unfold spawn_ports. rewrite omap_app. simpl. by rewrite app_nil_r. Qed.

(** The children of a run of the basic launcher. *)
Lemma basic_children env args :
  map Entry.port (processes (MultiPort.main env args))
  = (if MultiPort.help args then [] else MultiPort.ports args)
  /\ spawn_ports (out (MultiPort.main env args))
  = map printed (if MultiPort.help args then [] else MultiPort.ports args).
Proof.
  unfold MultiPort.main. destruct (MultiPort.help args); [done|].
  fold (start_all (log (MultiPort.banner (MultiPort.ports args)) (initial env))
                  (MultiPort.ports args)).
  split.
  - cbn [log emit processes]. by rewrite start_all_ports.
  - cbn [log emit out]. rewrite spawn_ports_snoc_log, start_all_spawn_ports.
    done.
Qed.

Lemma determine_keeps cfg args s :
  processes (snd (MultiPortConfig.determine cfg args s)) = processes s
  /\ spawn_ports (out (snd (MultiPortConfig.determine cfg args s)))
     = spawn_ports (out s).
Proof.
  unfold MultiPortConfig.determine.
  destruct (findIndex _ args); [|done].
  destruct (args !! _); [|done].
  destruct (MultiPortConfig.get_profile _ _) as [[[ps|] [[|c d]|]]|];
    cbn [snd log emit processes out];
    rewrite ?spawn_ports_snoc_log; try done;
    unfold spawn_ports; rewrite !omap_app; simpl; by rewrite !app_nil_r.
Qed.

Lemma fallback_keeps cfg ps s :
  processes (snd (MultiPortConfig.fallback cfg ps s)) = processes s
  /\ spawn_ports (out (snd (MultiPortConfig.fallback cfg ps s)))
     = spawn_ports (out s).
Proof.
  unfold MultiPortConfig.fallback. destruct (_ =? _)%nat; [|done].
  destruct (MultiPortConfig.get_profile _ _) as [[[?|] ?]|];
    cbn [snd log emit processes out]; by rewrite ?spawn_ports_snoc_log.
Qed.

Lemma load_keeps file env :
  fst (MultiPortConfig.load file (initial env)) = config_of file
  /\ processes (snd (MultiPortConfig.load file (initial env))) = []
  /\ spawn_ports (out (snd (MultiPortConfig.load file (initial env)))) = [].
Proof. by destruct file. Qed.

Lemma list_entries_keep (l : list (jsstring * MultiPortConfig.profile)) : forall s,
  let s' := foldl (fun st '(name, p) =>
                     if decide (name = lit "defaultPorts") then st
                     else MultiPortConfig.list_entry name p st) s l in
  processes s' = processes s /\ spawn_ports (out s') = spawn_ports (out s).
Proof.
  induction l as [|[name p] l IH]; intros s; [done|].
  cbn [foldl]. destruct (IH (if decide (name = lit "defaultPorts") then s
                              else MultiPortConfig.list_entry name p s)) as [H1 H2].
  cbv zeta. rewrite H1, H2. destruct (decide _); [done|].
  unfold MultiPortConfig.list_entry. cbn [log emit processes out].
  by rewrite !spawn_ports_snoc_log.
Qed.

Lemma list_all_keeps cfg s :
  processes (MultiPortConfig.list_all cfg s) = processes s
  /\ spawn_ports (out (MultiPortConfig.list_all cfg s)) = spawn_ports (out s).
Proof.
  unfold MultiPortConfig.list_all.
  destruct (list_entries_keep (MultiPortConfig.profiles cfg)
              (log (clipboard ++ lit " Available profiles:" ++ nl) s)) as [H1 H2].
  cbv zeta in H1, H2. rewrite H1, H2. cbn [log emit processes out].
  by rewrite spawn_ports_snoc_log.
Qed.

(** The children of a run of the config-based launcher. *)
Lemma config_children file env args :
  map Entry.port (processes (MultiPortConfig.main file env args))
  = config_run_ports file args
  /\ spawn_ports (out (MultiPortConfig.main file env args))
  = map printed (config_run_ports file args).
Proof.
  unfold MultiPortConfig.main, config_run_ports, MultiPortConfig.ports.
  destruct (load_keeps file env) as (Hc & Hp & Hs).
  destruct (MultiPortConfig.load file (initial env)) as [cfg s0].
  simpl in Hc, Hp, Hs. subst cfg.
  destruct (MultiPortConfig.help args); cbn [orb].
  { cbn [log emit processes out]. rewrite Hp.
    unfold spawn_ports in *. rewrite !omap_app, Hs. done. }
  destruct (MultiPortConfig.listProfiles args).
  { destruct (list_all_keeps (config_of file) s0) as [H1 H2].
    cbn [emit processes out]. rewrite H1, Hp.
    unfold spawn_ports in *. rewrite omap_app, H2, Hs. done. }
  destruct (determine_keeps (config_of file) args s0) as [H1 H2].
  rewrite (determine_fst _ _ (initial ∅) s0).
  destruct (MultiPortConfig.determine (config_of file) args s0) as [[ps|] s1].
  2:{ simpl in *. by rewrite H1, H2, Hp, Hs. }
  cbn [fst snd default] in *.
  destruct (fallback_keeps (config_of file) ps s1) as [H3 H4].
  rewrite (fallback_fst _ _ (initial ∅) s1).
  destruct (MultiPortConfig.fallback (config_of file) ps s1) as [qs s2].
  cbn [fst snd] in *. rewrite startServer_same.
  fold (start_all (log (MultiPortConfig.banner qs) s2) qs).
  split.
  - cbn [log emit processes]. rewrite start_all_ports.
    cbn [log emit processes]. by rewrite H3, H1, Hp.
  - cbn [log emit out]. rewrite spawn_ports_snoc_log, start_all_spawn_ports.
    cbn [log emit out]. by rewrite spawn_ports_snoc_log, H4, H2, Hs.
Qed.

End Startup.

(** ** Listeners *)

Section Listeners.

Lemma scripts_same : config_based = basic.
Proof. reflexivity. Qed.

Lemma on_stdout_performed port data s :
  performed (MultiPort.on_stdout port data) s
  = if relevant data then [ConsoleLog (port_tag port ++ trim data)] else [].
Proof.
  unfold performed, MultiPort.on_stdout, relevant.
  destruct (_ || _); cbn [log emit out].
  - by rewrite drop_app_length.
  - by rewrite drop_all.
Qed.

Lemma on_stderr_performed port data s :
  performed (MultiPort.on_stderr port data) s
  = [ConsoleLog (port_tag port ++ trim data)].
Proof. unfold performed. cbn. by rewrite drop_app_length. Qed.

Lemma stop_loop (l : list entry) : forall s,
  let s' := foldl (fun st e =>
                     let st := log (port_tag (Entry.port e)
                                    ++ lit "Stopping server...") st in
                     emit (Kill (Entry.process e) SIGTERM) st) s l in
  processes s' = processes s /\ out s' = out s ++ flat_map stopping l.
Proof.
  induction l as [|e l IH]; intros s; cbn [foldl flat_map].
  - by rewrite app_nil_r.
  - destruct (IH (emit (Kill (Entry.process e) SIGTERM)
                    (log (port_tag (Entry.port e) ++ lit "Stopping server...") s)))
      as [H1 H2].
    cbv zeta in *. rewrite H1, H2. cbn [log emit processes out stopping].
    split; [done|]. by rewrite <- !app_assoc.
Qed.

Lemma on_SIGINT_spec s :
  processes (MultiPort.on_SIGINT s) = processes s
  /\ performed MultiPort.on_SIGINT s
     = ConsoleLog (nl ++ stop_sign ++ lit " Shutting down all servers...")
       :: flat_map stopping (processes s) ++ [SetTimeout 1000].
Proof.
  unfold performed, MultiPort.on_SIGINT.
  destruct (stop_loop (processes s)
              (log (nl ++ stop_sign ++ lit " Shutting down all servers...") s))
    as [H1 H2].
  cbv zeta in H1, H2. cbn [emit processes out].
  change (processes (log (nl ++ stop_sign ++ lit " Shutting down all servers...") s))
    with (processes s) in *.
  rewrite H1, H2. split; [done|]. cbn [log emit out].
  rewrite <- !app_assoc. by rewrite drop_app_length.
Qed.

Lemma kills_stopping l :
  kills (flat_map stopping l) = map (fun e => (Entry.process e, SIGTERM)) l.
Proof. induction l as [|e l IH]; [done|]. simpl. by rewrite <- IH. Qed.

Lemma term_loop (l : list entry) : forall s,
  processes (foldl (fun st e => emit (Kill (Entry.process e) SIGTERM) st) s l)
  = processes s.
Proof. induction l as [|e l IH]; intros s; [done|]. simpl. by rewrite IH. Qed.

Lemma strict_eq_true a b : strict_eq a b = true -> a = b.
Proof. destruct a, b; try done. simpl. by intros ->%Z.eqb_eq. Qed.

Lemma strict_eq_refl a : real a -> strict_eq a a = true.
Proof. destruct a; [done|]. intros _. apply Z.eqb_refl. Qed.

Lemma on_exit_processes port code s :
  processes (MultiPort.on_exit port code s) = forget port (processes s).
Proof.
  unfold MultiPort.on_exit, forget. cbn [log emit processes].
  by destruct (findIndex _ _).
Qed.

Lemma findIndex_Some {A} (P : A -> Prop) `{forall x, Decision (P x)} l i :
  findIndex P l = Some i ->
  exists x, l !! i = Some x /\ P x /\ forall j y, l !! j = Some y -> (j < i)%nat -> ~ P y.
Proof.
  unfold findIndex. destruct (list_find P l) as [[j x]|] eqn:E; [|done].
  intros [= <-]. apply list_find_Some in E. eauto.
Qed.

Lemma findIndex_None {A} (P : A -> Prop) `{forall x, Decision (P x)} l :
  findIndex P l = None -> Forall (fun x => ~ P x) l.
Proof.
  unfold findIndex. destruct (list_find P l) as [[j x]|] eqn:E; [done|].
  intros _. by apply list_find_None in E.
Qed.

(** An exit drops the first entry on the port, and nothing else. *)
Lemma forget_found port ps :
  real port -> port ∈ map Entry.port ps ->
  exists i e, ps !! i = Some e /\ Entry.port e = port
              /\ (forall j e', ps !! j = Some e' -> (j < i)%nat -> Entry.port e' <> port)
              /\ forget port ps = delete i ps.
Proof.
  intros Hr Hin. unfold forget.
  destruct (findIndex _ ps) as [i|] eqn:E.
  - apply findIndex_Some in E as (e & Hi & He & Hfirst).
    exists i, e. repeat split; [done|by apply strict_eq_true|].
    intros j e' Hj Hlt <-. apply (Hfirst j e' Hj Hlt).
    by apply strict_eq_refl.
  - apply findIndex_None in E. apply list_elem_of_In, in_map_iff in Hin.
    destruct Hin as (e & <- & He%list_elem_of_In).
    rewrite Forall_forall in E. destruct (E e He). by apply strict_eq_refl.
Qed.

Lemma forget_absent port ps :
  port ∉ map Entry.port ps -> forget port ps = ps.
Proof.
  intros Hni. unfold forget.
  destruct (findIndex _ ps) as [i|] eqn:E; [|done].
  apply findIndex_Some in E as (e & Hi & He%strict_eq_true & _).
  destruct Hni. subst port. apply list_elem_of_In, in_map, list_elem_of_In.
  by eapply list_elem_of_lookup_2.
Qed.

End Listeners.

(** ** Bookkeeping of the running children *)

Section Supervision.

Lemma boot_tracked s :
  Forall real (map Entry.port (processes s)) -> tracked (boot s).
Proof.
  intros H. split; cbn [boot st running].
  - by rewrite map_map.
  - apply Forall_forall. intros [c p] Hin.
    apply list_elem_of_In, in_map_iff in Hin as (e & [= <- <-] & He).
    rewrite Forall_forall in H. cbn [snd]. apply H.
    by apply list_elem_of_In, in_map.
Qed.

Lemma on_stdout_processes port data s :
  processes (MultiPort.on_stdout port data s) = processes s.
Proof. unfold MultiPort.on_stdout. by destruct (_ || _). Qed.

Lemma on_SIGTERM_processes s :
  processes (MultiPort.on_SIGTERM s) = processes s.
Proof. unfold MultiPort.on_SIGTERM. cbn [emit processes]. by rewrite term_loop. Qed.

Lemma on_SIGINT_processes s :
  processes (MultiPort.on_SIGINT s) = processes s.
Proof. apply on_SIGINT_spec. Qed.

Lemma exit_tracked w i c p code :
  tracked w -> running w !! i = Some (c, p) ->
  tracked {| st := MultiPort.on_exit p code (st w);
             running := delete i (running w) |}.
Proof.
  intros [Hperm Hreal] Hi. unfold tracked. cbn [st running].
  rewrite on_exit_processes.
  assert (Hp : real p).
  { rewrite Forall_forall in Hreal.
    apply (Hreal (c, p)). by eapply list_elem_of_lookup_2. }
  assert (Hin : p ∈ map Entry.port (processes (st w))).
  { rewrite Hperm. apply list_elem_of_In.
    change p with (snd (c, p)). apply in_map, list_elem_of_In.
    by eapply list_elem_of_lookup_2. }
  destruct (forget_found p _ Hp Hin) as (j & e & Hj & He & _ & ->).
  split; [|by apply Forall_delete].
  apply (Permutation_cons_inv (a := p)).
  transitivity (map Entry.port (processes (st w))).
  - rewrite <- He. change (Entry.port e :: map Entry.port ?l)
      with (map Entry.port (e :: l)).
    apply Permutation_map. symmetry. by apply delete_Permutation.
  - rewrite Hperm. change (p :: map snd ?l) with (map snd ((c, p) :: l)).
    apply Permutation_map. by apply delete_Permutation.
Qed.

Lemma step_tracked w w' : tracked w -> step basic w w' -> tracked w'.
Proof.
  intros Hw Hstep. destruct Hstep; cbn [basic stdout_data stderr_data
    child_exit sigint sigterm timeout]; try (by eapply exit_tracked);
    destruct Hw as [Hperm Hreal]; split; cbn [st running]; try done;
    by rewrite ?on_stdout_processes, ?on_SIGINT_processes, ?on_SIGTERM_processes.
Qed.

Lemma run_tracked w w' : tracked w -> rtc (step basic) w w' -> tracked w'.
Proof. intros Hw Hrun. induction Hrun; eauto using step_tracked. Qed.

Lemma tracked_length w :
  tracked w -> length (processes (st w)) = length (running w).
Proof.
  intros [Hperm _]. apply Permutation_length in Hperm.
  by rewrite !length_map in Hperm.
Qed.

End Supervision.

(** ** Where the ports come from *)

Section Sources.

Lemma findIndex_flag flag (args : list jsstring) i :
  findIndex (fun arg => arg = flag) args = Some i -> args !! i = Some flag.
Proof. intros (x & Hx & -> & _)%findIndex_Some. done. Qed.

Lemma in_positional args p :
  p ∈ MultiPort.positional args -> from_arguments args p.
Proof.
  rewrite positional_filter. intros [_ Hin]%list_elem_of_filter.
  apply list_elem_of_In, in_map_iff in Hin as (arg & Hp & Harg%list_elem_of_In).
  by eapply from_token.
Qed.

Lemma in_from_list args i portsString p :
  args !! i = Some (lit "--ports") -> args !! S i = Some portsString ->
  p ∈ MultiPort.from_list portsString -> from_arguments args p.
Proof.
  intros Hi Hv [_ Hin]%list_elem_of_filter.
  apply list_elem_of_In, in_map_iff in Hin as (item & Hp & Hitem%list_elem_of_In).
  by eapply from_ports_flag.
Qed.

Lemma in_parse_config args p :
  p ∈ MultiPortConfig.parse args -> from_arguments args p.
Proof.
  unfold MultiPortConfig.parse.
  destruct (findIndex _ args) as [i|] eqn:E;
    [|rewrite positional_same; apply in_positional].
  apply findIndex_flag in E. rewrite Nat.add_1_r.
  destruct (args !! S i) as [v|] eqn:Ev;
    [|rewrite positional_same; apply in_positional].
  by apply in_from_list with i.
Qed.

Lemma in_parse args p :
  p ∈ MultiPort.parse args ->
  from_arguments args p \/ p ∈ MultiPort.DEFAULT_PORTS.
Proof.
  unfold MultiPort.parse. destruct (arr_includes _ _) eqn:Hd; [by right|].
  intros Hin. left. apply in_parse_config.
  rewrite (parse_config_basic _ Hd). unfold MultiPort.parse. by rewrite Hd.
Qed.

Lemma in_ports args p :
  p ∈ MultiPort.ports args ->
  from_arguments args p \/ p ∈ MultiPort.DEFAULT_PORTS.
Proof.
  unfold MultiPort.ports. destruct (_ =? _)%nat; [by right|apply in_parse].
Qed.

Lemma in_numbers p ps :
  p ∈ MultiPortConfig.numbers ps -> exists z, z ∈ ps /\ p = Num z.
Proof.
  intros (z & <- & Hz%list_elem_of_In)%list_elem_of_In%in_map_iff. eauto.
Qed.

Lemma in_fallback cfg args ps s p :
  (forall q, q ∈ ps -> from_arguments args q \/ from_profile cfg args q) ->
  p ∈ fst (MultiPortConfig.fallback cfg ps s) ->
  from_arguments args p \/ from_profile cfg args p \/ from_defaults cfg p.
Proof.
  intros Hps. unfold MultiPortConfig.fallback.
  destruct (_ =? _)%nat.
  2:{ intros [?|?]%Hps; auto. }
  destruct (MultiPortConfig.get_profile cfg (lit "development"))
    as [[[qs|] d]|] eqn:Edev; cbn [fst].
  1:{ intros (z & Hz & ->)%in_numbers. right; right.
      by eapply from_development. }
  all: destruct (MultiPortConfig.defaultPorts cfg) as [qs|] eqn:Edef;
    [ intros (z & Hz & ->)%in_numbers; right; right;
      by eapply from_defaultPorts
    | intros Hin; right; right; by apply from_built_in ].
Qed.

Lemma in_ports_config cfg args ps p :
  MultiPortConfig.ports cfg args = Some ps -> p ∈ ps ->
  from_arguments args p \/ from_profile cfg args p \/ from_defaults cfg p.
Proof.
  unfold MultiPortConfig.ports, MultiPortConfig.determine.
  destruct (findIndex _ args) as [i|] eqn:E.
  2:{ intros [= <-]. apply in_fallback. intros q Hq.
      left. by apply in_parse_config. }
  apply findIndex_flag in E. rewrite Nat.add_1_r.
  destruct (args !! S i) as [name|] eqn:En.
  2:{ intros [= <-]. apply in_fallback. intros q Hq.
      left. by apply in_parse_config. }
  destruct (MultiPortConfig.get_profile cfg name) as [[[qs|] d]|] eqn:Ep;
    cbn [fst]; try done.
  intros [= <-]. apply in_fallback.
  intros q (z & Hz & ->)%in_numbers. right. by eapply from_named.
Qed.

End Sources.

(** * The claims *)

Section Claims.

(** C1 (as amended).  Every port a launcher spawns a server on comes from the
    command line (an argument parsed as a number, or a piece of the value
    after [--ports]), from the profile named by [--profile], or from a
    default: the built-in list 3000..3003 in the basic launcher; the
    development profile, the [defaultPorts] of the configuration or the
    built-in list in the config-based launcher.  The [PORT] each child gets
    is the printed form of such a port. *)
Theorem C1_port_sources :
  (forall env args p,
     p ∈ map Entry.port (processes (MultiPort.main env args)) ->
     from_arguments args p \/ p ∈ MultiPort.DEFAULT_PORTS)
  /\ (forall file env args p,
     p ∈ map Entry.port (processes (MultiPortConfig.main file env args)) ->
     from_arguments args p \/ from_profile (config_of file) args p
     \/ from_defaults (config_of file) p)
  /\ (forall env args,
     spawn_ports (out (MultiPort.main env args))
     = map printed (map Entry.port (processes (MultiPort.main env args))))
  /\ (forall file env args,
     spawn_ports (out (MultiPortConfig.main file env args))
     = map printed (map Entry.port (processes (MultiPortConfig.main file env args)))).
Proof.
  repeat split.
  - intros env args p. rewrite (proj1 (basic_children env args)).
    destruct (MultiPort.help args); [by intros ?%elem_of_nil|apply in_ports].
  - intros file env args p. rewrite (proj1 (config_children file env args)).
    unfold config_run_ports.
    destruct (_ || _); [by intros ?%elem_of_nil|].
    destruct (MultiPortConfig.ports (config_of file) args) as [ps|] eqn:E;
      [|by intros ?%elem_of_nil].
    by apply in_ports_config.
  - intros env args. by destruct (basic_children env args) as [-> ->].
  - intros file env args. by destruct (config_children file env args) as [-> ->].
Qed.

Lemma C1_port_sources_witness :
  (from_arguments [lit "8080"] (Num 8080) \/ Num 8080 ∈ MultiPort.DEFAULT_PORTS)
  /\ (from_arguments [lit "--profile"; lit "staging"] (Num 5001)
      \/ from_profile
           {| MultiPortConfig.defaultPorts := None;
              MultiPortConfig.profiles :=
                [(lit "staging",
                  {| MultiPortConfig.profile_ports := Some [5000; 5001]%Z;
                     MultiPortConfig.description := None |})] |}
           [lit "--profile"; lit "staging"] (Num 5001)
      \/ from_defaults
           {| MultiPortConfig.defaultPorts := None;
              MultiPortConfig.profiles :=
                [(lit "staging",
                  {| MultiPortConfig.profile_ports := Some [5000; 5001]%Z;
                     MultiPortConfig.description := None |})] |}
           (Num 5001)).
Proof.
  split.
  - apply (proj1 C1_port_sources ∅ [lit "8080"] (Num 8080)).
    change (Num 8080 ∈ [Num 8080]). apply list_elem_of_here.
  - apply (proj1 (proj2 C1_port_sources)
             (MultiPortConfig.Parsed
                {| MultiPortConfig.defaultPorts := None;
                   MultiPortConfig.profiles :=
                     [(lit "staging",
                       {| MultiPortConfig.profile_ports := Some [5000; 5001]%Z;
                          MultiPortConfig.description := None |})] |})
             ∅ [lit "--profile"; lit "staging"] (Num 5001)).
    change (Num 5001 ∈ [Num 5000; Num 5001]).
    apply list_elem_of_further, list_elem_of_here.
Defined.

(** C1 as stated fails: started without arguments, the basic launcher spawns
    a server on port 3000, which is neither read from the command line nor
    taken from a profile. *)
Lemma C1_counterexample :
  map Entry.port (processes (MultiPort.main ∅ []))
  = [Num 3000; Num 3001; Num 3002; Num 3003]
  /\ spawn_ports (out (MultiPort.main ∅ []))
     = [Some (lit "3000"); Some (lit "3001"); Some (lit "3002"); Some (lit "3003")]
  /\ ~ from_arguments [] (Num 3000)
  /\ ~ (exists cfg, from_profile cfg [] (Num 3000)).
Proof.
  split; [reflexivity|]. split; [reflexivity|]. split.
  - intros [arg Harg _|i v item Hi _ _ _]; [by apply elem_of_nil in Harg|done].
  - intros [cfg [i name prof ps z Hi _ _ _ _ _]]. done.
Qed.

(** C3 (as amended).  A chunk a child writes to standard error is always
    shown, trimmed, behind the tag [[Port <port>] ]; a chunk a child writes
    to standard output is shown in the same way only if it contains
    [Server running], [error] or [Error], and is dropped otherwise. *)
Theorem C3_forwarding :
  forall port data s,
    port_tag port = lit "[Port " ++ number_toString port ++ lit "] "
    /\ performed (MultiPort.on_stderr port data) s
       = [ConsoleLog (port_tag port ++ trim data)]
    /\ performed (MultiPortConfig.on_stderr port data) s
       = [ConsoleLog (port_tag port ++ trim data)]
    /\ performed (MultiPort.on_stdout port data) s
       = (if includes data (lit "Server running") || includes data (lit "error")
             || includes data (lit "Error")
          then [ConsoleLog (port_tag port ++ trim data)] else [])
    /\ performed (MultiPortConfig.on_stdout port data) s
       = (if includes data (lit "Server running") || includes data (lit "error")
             || includes data (lit "Error")
          then [ConsoleLog (port_tag port ++ trim data)] else []).
Proof.
  intros port data s.
  change MultiPortConfig.on_stderr with MultiPort.on_stderr.
  change MultiPortConfig.on_stdout with MultiPort.on_stdout.
  repeat split; try apply on_stderr_performed; apply on_stdout_performed.
Qed.

(** C3 as stated fails: the chunk [ready] written to standard output by the
    child on port 3000 is not forwarded at all. *)
Lemma C3_counterexample :
  performed (MultiPort.on_stdout (Num 3000) (lit "ready")) (initial ∅) = []
  /\ performed (MultiPortConfig.on_stdout (Num 3000) (lit "ready")) (initial ∅) = [].
Proof. split; reflexivity. Qed.

(** C4 (as amended).  A launcher spawns one child per element of its port
    list, in order, with [PORT] set to the printed element; the [PORT] values
    are pairwise different exactly when the port list has no repeated
    element.  Nothing removes repetitions from the list. *)
Theorem C4_distinct_ports :
  (forall env args,
     let ports := if MultiPort.help args then [] else MultiPort.ports args in
     spawn_ports (out (MultiPort.main env args)) = map printed ports
     /\ (NoDup (spawn_ports (out (MultiPort.main env args))) <-> NoDup ports))
  /\ (forall file env args,
     let ports := config_run_ports file args in
     spawn_ports (out (MultiPortConfig.main file env args)) = map printed ports
     /\ (NoDup (spawn_ports (out (MultiPortConfig.main file env args)))
         <-> NoDup ports)).
Proof.
  assert (Hinj : Inj (=) (=) printed).
  { intros x y [= H]. by apply number_toString_inj. }
  split.
  - intros env args ports. subst ports.
    rewrite (proj2 (basic_children env args)).
    split; [done|]. apply (NoDup_fmap printed).
  - intros file env args ports. subst ports.
    rewrite (proj2 (config_children file env args)).
    split; [done|]. apply (NoDup_fmap printed).
Qed.

Lemma C4_distinct_ports_witness :
  NoDup (spawn_ports (out (MultiPort.main ∅ [lit "3000"; lit "3001"]))).
Proof.
  apply (proj1 C4_distinct_ports ∅ [lit "3000"; lit "3001"]).
  change (NoDup [Num 3000; Num 3001]).
  apply (bool_decide_unpack (NoDup [Num 3000; Num 3001])). reflexivity.
Defined.

(** C4 as stated fails: given the same port twice, the basic launcher starts
    two children with [PORT=3000]. *)
Lemma C4_counterexample :
  spawn_ports (out (MultiPort.main ∅ [lit "3000"; lit "3000"]))
  = [Some (lit "3000"); Some (lit "3000")]
  /\ ~ NoDup (spawn_ports (out (MultiPort.main ∅ [lit "3000"; lit "3000"]))).
Proof.
  split; [reflexivity|].
  change (spawn_ports _) with [Some (lit "3000"); Some (lit "3000")].
  intros H. apply NoDup_cons in H as [H _]. apply H, list_elem_of_here.
Qed.

(** C5 (as amended).  The route table of the server has exactly three JSON
    handlers: [GET] and [PUT] on [/api/hello], which answer every request
    with the fixed message [Hello, world!], their method and the port; and
    the handler of [/api/hello/:name], registered for every method, whose
    message [Hello, <name>!] is built from the [name] parameter of the
    request and comes with the port. *)
Theorem C5_hello_endpoints :
  forall port req,
    Server.json_handlers (Server.routes port)
    = [(Some Server.GET, lit "/api/hello", Server.hello_GET port);
       (Some Server.PUT, lit "/api/hello", Server.hello_PUT port);
       (None, lit "/api/hello/:name", Server.hello_name port)]
    /\ Server.hello_GET port req
       = [(lit "message", Server.JString (lit "Hello, world!"));
          (lit "method", Server.JString (lit "GET"));
          (lit "port", Server.of_number port)]
    /\ Server.hello_PUT port req
       = [(lit "message", Server.JString (lit "Hello, world!"));
          (lit "method", Server.JString (lit "PUT"));
          (lit "port", Server.of_number port)]
    /\ Server.hello_name port req
       = [(lit "message",
           Server.JString (lit "Hello, " ++ Server.name_of req ++ lit "!"));
          (lit "port", Server.of_number port)].
Proof. intros port req. repeat split. Qed.

(** C5 as stated fails: the answer of [/api/hello/:name] is not a static
    message, it changes with the name in the request. *)
Lemma C5_counterexample :
  Server.hello_name (Num 3000) {| Server.params := {[ lit "name" := lit "Ada" ]} |}
  <> Server.hello_name (Num 3000) {| Server.params := {[ lit "name" := lit "Bob" ]} |}.
Proof. intros H. vm_compute in H. discriminate H. Qed.

Lemma number_toString_nonempty p : number_toString p <> [].
Proof.
  destruct p as [|z]; [done|]. unfold number_toString.
  destruct (z <? 0)%Z; [done|]. apply decimal_spec.
Qed.

(** C10 as stated fails: with [PORT] set to the empty string the handlers
    answer with port 3000, not with [parseInt] of [PORT], which is [NaN]. *)
Lemma C10_counterexample :
  Server.get (lit "port")
    (Server.hello_GET (Server.port {[ lit "PORT" := lit "" ]})
                      {| Server.params := ∅ |})
  = Some (Server.JNumber 3000)
  /\ stated_port {[ lit "PORT" := lit "" ]} = NaN.
Proof. split; reflexivity. Qed.

Lemma absent_findIndex flag (args : list jsstring) :
  arr_includes flag args = false ->
  findIndex (fun arg => arg = flag) args = None.
Proof.
  intros H. destruct (findIndex _ args) as [i|] eqn:E; [|done].
  apply findIndex_flag, list_elem_of_lookup_2 in E.
  unfold arr_includes in H. by rewrite bool_decide_eq_false in H.
Qed.

(** On arguments that both launchers understand in the same way, the
    config-based launcher goes through its profile test and its fallback
    without effect and is left with the ports of the basic launcher. *)
Lemma ports_agree cfg args :
  Forall (fun flag => arr_includes flag args = false) launcher_flags ->
  MultiPort.parse args <> [] ->
  MultiPort.help args = false
  /\ MultiPortConfig.help args = false
  /\ MultiPortConfig.listProfiles args = false
  /\ MultiPort.ports args = MultiPort.parse args
  /\ (forall s, MultiPortConfig.determine cfg args s
                = (Some (MultiPort.parse args), s))
  /\ (forall s, MultiPortConfig.fallback cfg (MultiPort.parse args) s
                = (MultiPort.parse args, s)).
Proof.
  intros Hflags Hne.
  apply Forall_cons in Hflags as [Hdefault Hflags].
  apply Forall_cons in Hflags as [Hprofile Hflags].
  apply Forall_cons in Hflags as [Hhelp Hflags].
  apply Forall_cons in Hflags as [Hh Hflags].
  apply Forall_cons in Hflags as [Hlist Hflags].
  apply Forall_cons in Hflags as [Hl _].
  assert (Hlen : (length (MultiPort.parse args) =? 0)%nat = false).
  { apply Nat.eqb_neq. by destruct (MultiPort.parse args). }
  unfold MultiPort.help, MultiPortConfig.help, MultiPortConfig.listProfiles.
  rewrite Hhelp, Hh, Hlist, Hl.
  split; [done|]. split; [done|]. split; [done|]. split; [|split].
  - unfold MultiPort.ports. by rewrite Hlen.
  - intros s. unfold MultiPortConfig.determine.
    by rewrite (absent_findIndex _ _ Hprofile), (parse_config_basic _ Hdefault).
  - intros s. unfold MultiPortConfig.fallback. by rewrite Hlen.
Qed.

Lemma run_ports_agree file args :
  Forall (fun flag => arr_includes flag args = false) launcher_flags ->
  MultiPort.parse args <> [] ->
  config_run_ports file args = MultiPort.ports args.
Proof.
  intros Hflags Hne.
  destruct (ports_agree (config_of file) args Hflags Hne)
    as (_ & Hhelp & Hlist & Hports & Hdet & Hfb).
  unfold config_run_ports, MultiPortConfig.ports.
  by rewrite Hhelp, Hlist, Hdet, Hports; cbn [fst orb]; rewrite Hfb.
Qed.

Lemma started_real s0 : started s0 -> Forall real (map Entry.port (processes s0)).
Proof.
  intros [env args|file env args].
  - rewrite (proj1 (basic_children env args)).
    destruct (MultiPort.help args); [constructor|apply real_ports].
  - rewrite (proj1 (config_children file env args)). unfold config_run_ports.
    destruct (_ || _); [constructor|].
    destruct (MultiPortConfig.ports (config_of file) args) as [ps|] eqn:E;
      [by eapply real_ports_config|constructor].
Qed.

Lemma no_port_positional args :
  no_valid_port args -> MultiPort.positional args = [].
Proof.
  intros Hno. rewrite positional_filter.
  apply elem_of_nil_inv. intros p [Hp Hin]%list_elem_of_filter.
  apply list_elem_of_In, in_map_iff in Hin as (arg & Harg & Hin%list_elem_of_In).
  rewrite (Hno p) in Hp; [done|]. by eapply from_token.
Qed.

Lemma no_port_parse_config args :
  no_valid_port args -> MultiPortConfig.parse args = [].
Proof.
  intros Hno. apply elem_of_nil_inv. intros p Hin.
  pose proof (Hin' := Hin). apply in_parse_config, Hno in Hin' as ->.
  pose proof (real_parse_config args) as Hreal.
  rewrite Forall_forall in Hreal. by apply (Hreal NaN).
Qed.

Lemma no_port_ports args :
  no_valid_port args -> MultiPort.ports args = MultiPort.DEFAULT_PORTS.
Proof.
  intros Hno. unfold MultiPort.ports, MultiPort.parse.
  destruct (arr_includes (lit "--default") args) eqn:Hd; [done|].
  pose proof (no_port_parse_config args Hno) as Hnil.
  rewrite (parse_config_basic _ Hd) in Hnil.
  unfold MultiPort.parse in Hnil. rewrite Hd in Hnil. by rewrite Hnil.
Qed.

(** C8 (as amended).  When the arguments yield no port and the launcher is
    not asked for its help text, the basic launcher starts the servers of the
    built-in list 3000..3003.  When moreover the config-based launcher is not
    asked for its list of profiles and no [--profile] with a value is given,
    it starts the ports of the development profile if the configuration has
    them, else the [defaultPorts] of the configuration if present, else the
    built-in list. *)
Theorem C8_fallback :
  (forall env args,
     MultiPort.help args = false -> no_valid_port args ->
     map Entry.port (processes (MultiPort.main env args))
     = [Num 3000; Num 3001; Num 3002; Num 3003])
  /\ (forall file env args,
     MultiPortConfig.help args = false ->
     MultiPortConfig.listProfiles args = false ->
     (forall i, args !! i = Some (lit "--profile") -> args !! S i = None) ->
     no_valid_port args ->
     map Entry.port (processes (MultiPortConfig.main file env args))
     = match MultiPortConfig.get_profile (config_of file) (lit "development") with
       | Some {| MultiPortConfig.profile_ports := Some ps |} =>
           MultiPortConfig.numbers ps
       | _ =>
           match MultiPortConfig.defaultPorts (config_of file) with
           | Some ps => MultiPortConfig.numbers ps
           | None => [Num 3000; Num 3001; Num 3002; Num 3003]
           end
       end).
Proof.
  split.
  - intros env args Hhelp Hno.
    rewrite (proj1 (basic_children env args)), Hhelp. by apply no_port_ports.
  - intros file env args Hhelp Hlist Hprofile Hno.
    rewrite (proj1 (config_children file env args)).
    unfold config_run_ports. rewrite Hhelp, Hlist. cbn [orb].
    unfold MultiPortConfig.ports, MultiPortConfig.determine.
    assert (Hfb : fst (MultiPortConfig.fallback (config_of file)
                         (MultiPortConfig.parse args) (initial ∅))
                  = match MultiPortConfig.get_profile (config_of file)
                            (lit "development") with
                    | Some {| MultiPortConfig.profile_ports := Some ps |} =>
                        MultiPortConfig.numbers ps
                    | _ =>
                        match MultiPortConfig.defaultPorts (config_of file) with
                        | Some ps => MultiPortConfig.numbers ps
                        | None => [Num 3000; Num 3001; Num 3002; Num 3003]
                        end
                    end).
    { rewrite (no_port_parse_config _ Hno). unfold MultiPortConfig.fallback.
      cbn [length Nat.eqb].
      by destruct (MultiPortConfig.get_profile _ _) as [[[?|] ?]|]. }
    destruct (findIndex _ args) as [i|] eqn:E; [|done].
    apply findIndex_flag, Hprofile in E. rewrite Nat.add_1_r, E. done.
Qed.

Lemma C8_fallback_witness :
  map Entry.port (processes (MultiPort.main ∅ [lit "abc"]))
  = [Num 3000; Num 3001; Num 3002; Num 3003]
  /\ map Entry.port
       (processes (MultiPortConfig.main MultiPortConfig.Missing ∅ [lit "--profile"]))
     = [Num 3000; Num 3001; Num 3002; Num 3003].
Proof.
  assert (Hno : forall arg, parseInt arg = NaN -> arg <> lit "--ports" ->
                            no_valid_port [arg]).
  { intros arg Harg Hne p [a Ha <-|i v item Hi Hv _ _].
    - apply list_elem_of_singleton in Ha as ->. done.
    - destruct i as [|i]; [|done]. by injection Hi. }
  split.
  - apply (proj1 C8_fallback ∅ [lit "abc"]); [reflexivity|].
    apply Hno; [reflexivity|discriminate].
  - apply (proj2 C8_fallback MultiPortConfig.Missing ∅ [lit "--profile"]);
      [reflexivity|reflexivity| |].
    + intros [|i] Hi; [reflexivity|done].
    + apply Hno; [reflexivity|discriminate].
Defined.

(** C8 as stated fails: [--profile nope] yields no port, yet the config-based
    launcher does not fall back to any default; it reports the unknown
    profile and exits with code 1 without starting a server. *)
Lemma C8_counterexample :
  no_valid_port [lit "--profile"; lit "nope"]
  /\ spawn_ports (out (MultiPortConfig.main MultiPortConfig.Missing ∅
                         [lit "--profile"; lit "nope"])) = []
  /\ last (out (MultiPortConfig.main MultiPortConfig.Missing ∅
                  [lit "--profile"; lit "nope"])) = Some (ProcessExit 1).
Proof.
  split; [|split; reflexivity].
  intros p [a Ha <-|i v item Hi Hv _ _].
  - apply elem_of_cons in Ha as [->|Ha]; [reflexivity|].
    apply list_elem_of_singleton in Ha as ->. reflexivity.
  - by destruct i as [|[|i]].
Qed.

Lemma digit_is_plain c : is_digit c = true -> plain c.
Proof.
  intros Hc. split; [by apply digit_plain|].
  unfold is_digit in Hc. apply andb_true_iff in Hc as [Hlo%N.leb_le _].
  apply N.eqb_neq. unfold comma. lia.
Qed.

Lemma toString_plain z : Forall plain (number_toString (Num z)).
Proof.
  unfold number_toString.
  destruct (z <? 0)%Z; [constructor; [done|]|];
    eapply Forall_impl; try apply decimal_spec; apply digit_is_plain.
Qed.




Lemma not_a_flag flag z : parseInt flag = NaN -> flag <> number_toString (Num z).
Proof. intros Hflag ->. by rewrite parseInt_toString in Hflag. Qed.

Lemma absent_single flag (a : jsstring) :
  flag <> a -> arr_includes flag [a] = false.
Proof.
  intros H. unfold arr_includes. apply bool_decide_eq_false.
  by intros ->%list_elem_of_singleton.
Qed.

Lemma absent_pair flag (a b : jsstring) :
  flag <> a -> flag <> b -> arr_includes flag [a; b] = false.
Proof.
  intros Ha Hb. unfold arr_includes. apply bool_decide_eq_false.
  by intros [->| ->%list_elem_of_singleton]%elem_of_cons.
Qed.


Lemma flags_help args :
  Forall (fun flag => arr_includes flag args = false) launcher_flags ->
  MultiPort.help args = false.
Proof.
  intros H. apply Forall_cons in H as [_ H]. apply Forall_cons in H as [_ H].
  apply Forall_cons in H as [Hhelp H]. apply Forall_cons in H as [Hh _].
  unfold MultiPort.help. by rewrite Hhelp, Hh.
Qed.







End Claims.

(** * Further properties *)

(** ** Leaving early *)

Section Leaving.

Lemma adds_refl P s : adds P s s.
Proof. exists []. by rewrite app_nil_r. Qed.

Lemma adds_trans P s1 s2 s3 : adds P s1 s2 -> adds P s2 s3 -> adds P s1 s3.
Proof.
  intros (es & H1 & H2) (es' & K1 & K2). exists (es ++ es').
  split; [by rewrite K1, H1, app_assoc|by apply Forall_app].
Qed.

Lemma adds_emit (P : effect -> Prop) e s : P e -> adds P s (emit e s).
Proof. intros He. exists [e]. by repeat constructor. Qed.

Lemma adds_log m s : adds printing s (log m s).
Proof. by apply adds_emit. Qed.

Lemma adds_exits s s' : adds printing s s' -> exits (out s') = exits (out s).
Proof.
  intros (es & -> & Hes). unfold exits. rewrite omap_app.
  replace (omap _ es) with (@nil Z); [by rewrite app_nil_r|].
  induction Hes as [|e es He _ IH]; [done|]. by destruct e.
Qed.

Lemma adds_load file env :
  adds printing (initial env) (snd (MultiPortConfig.load file (initial env))).
Proof.
  destruct file; cbn [MultiPortConfig.load snd]; try apply adds_refl.
  by apply adds_emit.
Qed.

Lemma adds_fallback cfg ps s :
  adds printing s (snd (MultiPortConfig.fallback cfg ps s)).
Proof.
  unfold MultiPortConfig.fallback. destruct (_ =? _)%nat; [|apply adds_refl].
  destruct (MultiPortConfig.get_profile _ _) as [[[?|] ?]|]; apply adds_log.
Qed.

Lemma adds_list_all cfg s : adds printing s (MultiPortConfig.list_all cfg s).
Proof.
  unfold MultiPortConfig.list_all.
  pose proof (adds_log (clipboard ++ lit " Available profiles:" ++ nl) s) as H.
  revert H. generalize (log (clipboard ++ lit " Available profiles:" ++ nl) s).
  induction (MultiPortConfig.profiles cfg) as [|[name p] l IH]; intros s0 H;
    [done|].
  cbn [foldl]. apply IH. eapply adds_trans; [exact H|].
  destruct (decide _); [apply adds_refl|].
  unfold MultiPortConfig.list_entry.
  eapply adds_trans; apply adds_log.
Qed.

(** What the profile test leaves behind: nothing but prints when it yields
    ports; the error line and [process.exit(1)] when it does not. *)
Lemma determine_outcome cfg args s :
  match MultiPortConfig.determine cfg args s with
  | (Some _, s') => adds printing s s'
  | (None, s') =>
      exists i name,
        findIndex (fun arg => arg = lit "--profile") args = Some i
        /\ args !! S i = Some name
        /\ (forall prof, MultiPortConfig.get_profile cfg name = Some prof ->
                         MultiPortConfig.profile_ports prof = None)
        /\ out s' = out s
             ++ [ConsoleError (cross_mark ++ lit " Profile '" ++ name
                               ++ lit "' not found in ports.config.json");
                 ProcessExit 1]
  end.
Proof.
  unfold MultiPortConfig.determine.
  destruct (findIndex _ args) as [i|] eqn:Ei; [|apply adds_refl].
  rewrite Nat.add_1_r.
  destruct (args !! S i) as [name|] eqn:En; [|apply adds_refl].
  destruct (MultiPortConfig.get_profile cfg name) as [[[ps|] [[|c d]|]]|] eqn:Ep;
    try (repeat first [ apply adds_log | eapply adds_trans; [|apply adds_log] ];
         apply adds_refl).
  all: exists i, name; cbn [emit out]; rewrite <- app_assoc;
    repeat split; try done; intros prof Hprof; by simplify_eq.
Qed.

End Leaving.

(** ** The children a run starts *)

Section Children.

Lemma start_all_spec ports : forall s,
  penv (start_all s ports) = penv s
  /\ spawned (start_all s ports) = (spawned s + length ports)%nat
  /\ processes (start_all s ports)
     = processes s ++ zip_with entry_of (seq (spawned s) (length ports)) ports
  /\ out (start_all s ports)
     = out s ++ concat (zip_with (starting (penv s))
                          (seq (spawned s) (length ports)) ports).
Proof.
  induction ports as [|p ports IH]; intros s.
  - cbn. rewrite !app_nil_r. repeat split; lia.
  - destruct (IH (MultiPort.startServer p s)) as (H1 & H2 & H3 & H4).
    change (start_all s (p :: ports))
      with (start_all (MultiPort.startServer p s) ports).
    rewrite H1, H2, H3, H4, startServer_penv, startServer_spawned,
      startServer_processes, startServer_out.
    cbn [length seq zip_with concat]. rewrite <- !app_assoc.
    repeat split; cbn; lia.
Qed.

Lemma quiet_refl s : quiet s s.
Proof. repeat split; exists []. by rewrite app_nil_r. Qed.

Lemma quiet_trans s1 s2 s3 : quiet s1 s2 -> quiet s2 s3 -> quiet s1 s3.
Proof.
  intros (H1 & H2 & H3 & es & H4 & H5) (K1 & K2 & K3 & es' & K4 & K5).
  repeat split; try congruence.
  exists (es ++ es'). split; [by rewrite K4, H4, app_assoc|by apply Forall_app].
Qed.

Lemma quiet_emit e s : silent e = true -> quiet s (emit e s).
Proof. intros He. repeat split. exists [e]. by repeat constructor. Qed.

Lemma quiet_log m s : quiet s (log m s).
Proof. by apply quiet_emit. Qed.

Lemma quiet_load file env :
  quiet (initial env) (snd (MultiPortConfig.load file (initial env))).
Proof. destruct file; cbn [MultiPortConfig.load snd]; try apply quiet_refl.
  by apply quiet_emit. Qed.

Lemma quiet_determine cfg args s :
  quiet s (snd (MultiPortConfig.determine cfg args s)).
Proof.
  unfold MultiPortConfig.determine.
  destruct (findIndex _ args); [|apply quiet_refl].
  destruct (args !! _); [|apply quiet_refl].
  destruct (MultiPortConfig.get_profile _ _) as [[[ps|] [[|c d]|]]|]; cbn [snd];
    repeat first [ apply quiet_log | by apply quiet_emit
                 | eapply quiet_trans; [|by apply quiet_emit] ].
Qed.

Lemma quiet_fallback cfg ps s :
  quiet s (snd (MultiPortConfig.fallback cfg ps s)).
Proof.
  unfold MultiPortConfig.fallback. destruct (_ =? _)%nat; [|apply quiet_refl].
  destruct (MultiPortConfig.get_profile _ _) as [[[?|] ?]|]; apply quiet_log.
Qed.

Lemma quiet_list_all cfg s : quiet s (MultiPortConfig.list_all cfg s).
Proof.
  unfold MultiPortConfig.list_all.
  pose proof (quiet_log (clipboard ++ lit " Available profiles:" ++ nl) s) as H.
  revert H. generalize (log (clipboard ++ lit " Available profiles:" ++ nl) s).
  induction (MultiPortConfig.profiles cfg) as [|[name p] l IH]; intros s0 H;
    [done|].
  cbn [foldl]. apply IH. eapply quiet_trans; [exact H|].
  destruct (decide _); [apply quiet_refl|].
  unfold MultiPortConfig.list_entry.
  eapply quiet_trans; apply quiet_log.
Qed.

Lemma quiet_spawns s s' : quiet s s' -> spawns (out s') = spawns (out s).
Proof.
  intros (_ & _ & _ & es & -> & Hes). unfold spawns. rewrite omap_app.
  replace (omap _ es) with (@nil effect); [by rewrite app_nil_r|].
  induction Hes as [|e es He _ IH]; [done|]. by destruct e.
Qed.

Lemma spawns_starting env children ports :
  spawns (concat (zip_with (starting env) children ports))
  = zip_with (spawning env) children ports.
Proof.
  revert ports. induction children as [|c cs IH]; intros [|p ps]; try done.
  cbn. f_equal. apply IH.
Qed.

Lemma spawns_app es es' : spawns (es ++ es') = spawns es ++ spawns es'.
Proof. apply omap_app. Qed.

(** A run of the basic launcher that is not asked for help. *)
Lemma basic_run env args :
  MultiPort.help args = false ->
  processes (MultiPort.main env args)
  = zip_with entry_of (seq 0 (length (MultiPort.ports args))) (MultiPort.ports args)
  /\ out (MultiPort.main env args)
     = ConsoleLog (MultiPort.banner (MultiPort.ports args))
       :: concat (zip_with (starting env)
                    (seq 0 (length (MultiPort.ports args))) (MultiPort.ports args))
       ++ [ConsoleLog (bulb ++ lit " Press Ctrl+C to stop all servers" ++ nl)].
Proof.
  intros Hhelp. unfold MultiPort.main. rewrite Hhelp.
  fold (start_all (log (MultiPort.banner (MultiPort.ports args)) (initial env))
                  (MultiPort.ports args)).
  destruct (start_all_spec (MultiPort.ports args)
              (log (MultiPort.banner (MultiPort.ports args)) (initial env)))
    as (_ & _ & Hp & Ho).
  cbn [log emit processes out]. by rewrite Hp, Ho.
Qed.

(** A run of the config-based launcher that gets to its loop: the loop
    starts from the initial state, up to silent effects. *)
Lemma config_run file env args :
  MultiPortConfig.help args = false ->
  MultiPortConfig.listProfiles args = false ->
  is_Some (MultiPortConfig.ports (config_of file) args) ->
  exists s0,
    quiet (initial env) s0
    /\ adds printing (initial env) s0
    /\ MultiPortConfig.main file env args
       = log (bulb ++ lit " Press Ctrl+C to stop all servers" ++ nl)
           (start_all s0 (config_run_ports file args)).
Proof.
  intros Hhelp Hlist [ps Hps].
  unfold config_run_ports. rewrite Hhelp, Hlist, Hps. cbn [orb default].
  unfold MultiPortConfig.main, MultiPortConfig.ports in *.
  pose proof (quiet_load file env) as Hq0.
  pose proof (adds_load file env) as Ha0.
  destruct (load_keeps file env) as (Hc & _ & _).
  destruct (MultiPortConfig.load file (initial env)) as [cfg s0].
  cbn [fst snd] in *. subst cfg. rewrite Hhelp, Hlist.
  pose proof (quiet_determine (config_of file) args s0) as Hq1.
  pose proof (determine_outcome (config_of file) args s0) as Ha1.
  rewrite (determine_fst _ _ (initial ∅) s0) in Hps.
  destruct (MultiPortConfig.determine (config_of file) args s0) as [[qs|] s1];
    [|done].
  cbn [fst snd] in *.
  pose proof (quiet_fallback (config_of file) qs s1) as Hq2.
  pose proof (adds_fallback (config_of file) qs s1) as Ha2.
  rewrite (fallback_fst _ _ (initial ∅) s1) in Hps.
  destruct (MultiPortConfig.fallback (config_of file) qs s1) as [rs s2].
  cbn [fst snd] in *. injection Hps as <-.
  exists (log (MultiPortConfig.banner rs) s2). split; [|split; [|done]].
  - eauto using quiet_trans, quiet_log.
  - eapply adds_trans; [|apply adds_log].
    eapply adds_trans; [|exact Ha2]. eapply adds_trans; [exact Ha0|exact Ha1].
Qed.

Lemma exits_start_all ports s :
  exits (out (start_all s ports)) = exits (out s).
Proof.
  destruct (start_all_spec ports s) as (_ & _ & _ & ->).
  unfold exits. rewrite omap_app.
  replace (omap _ (concat _)) with (@nil Z); [by rewrite app_nil_r|].
  generalize (seq (spawned s) (length ports)). intros cs. revert cs.
  induction ports as [|p ps IH]; intros [|c cs]; try done. cbn. apply IH.
Qed.

End Children.

Section ChildrenFacts.

Lemma server_port_of_child env c p :
  Server.port (child_env (spawning env c p)) = p.
Proof.
  cbn [spawning child_env]. unfold Server.port. rewrite lookup_insert_eq.
  pose proof (number_toString_nonempty p) as Hne.
  pose proof (parseInt_toString p) as Hrt.
  by destruct (number_toString p).
Qed.

Lemma ports_of_entries (cs : list nat) (ps : list number) :
  length cs = length ps -> map Entry.port (zip_with entry_of cs ps) = ps.
Proof.
  revert ps. induction cs as [|c cs IH]; intros [|p ps] Hlen; try done.
  cbn. f_equal. apply IH. by injection Hlen.
Qed.

Lemma ports_of_spawns env (cs : list nat) (ps : list number) :
  length cs = length ps ->
  map (fun e => Server.port (child_env e)) (zip_with (spawning env) cs ps) = ps.
Proof.
  revert ps. induction cs as [|c cs IH]; intros [|p ps] Hlen; try done.
  cbn [zip_with map]. rewrite server_port_of_child. f_equal.
  apply IH. by injection Hlen.
Qed.

Lemma children_basic env args :
  let ports := if MultiPort.help args then [] else MultiPort.ports args in
  processes (MultiPort.main env args)
  = zip_with entry_of (seq 0 (length ports)) ports
  /\ spawns (out (MultiPort.main env args))
     = zip_with (spawning env) (seq 0 (length ports)) ports.
Proof.
  destruct (MultiPort.help args) eqn:Hhelp; cbv zeta.
  { unfold MultiPort.main. by rewrite Hhelp. }
  destruct (basic_run env args Hhelp) as [Hp Ho]. rewrite Hp, Ho.
  split; [done|].
  change (ConsoleLog ?m :: ?l) with ([ConsoleLog m] ++ l).
  rewrite !spawns_app, spawns_starting. cbn. by rewrite app_nil_r.
Qed.

(** When the config-based launcher leaves early, it has only printed. *)
Lemma config_early file env args :
  MultiPortConfig.help args || MultiPortConfig.listProfiles args = true
  \/ MultiPortConfig.ports (config_of file) args = None ->
  quiet (initial env) (MultiPortConfig.main file env args).
Proof.
  intros Hearly. unfold MultiPortConfig.main.
  pose proof (quiet_load file env) as Hq0.
  destruct (load_keeps file env) as (Hc & _ & _).
  destruct (MultiPortConfig.load file (initial env)) as [cfg s0].
  cbn [fst snd] in *. subst cfg.
  destruct (MultiPortConfig.help args).
  { eapply quiet_trans; [exact Hq0|].
    eapply quiet_trans; [apply quiet_log|by apply quiet_emit]. }
  destruct (MultiPortConfig.listProfiles args).
  { eapply quiet_trans; [exact Hq0|].
    eapply quiet_trans; [apply quiet_list_all|by apply quiet_emit]. }
  destruct Hearly as [?|Hnone]; [done|].
  unfold MultiPortConfig.ports in Hnone.
  rewrite (determine_fst _ _ (initial ∅) s0) in Hnone.
  pose proof (quiet_determine (config_of file) args s0) as Hq1.
  destruct (MultiPortConfig.determine (config_of file) args s0) as [[qs|] s1];
    [done|].
  eauto using quiet_trans.
Qed.

Lemma children_config file env args :
  let ports := config_run_ports file args in
  processes (MultiPortConfig.main file env args)
  = zip_with entry_of (seq 0 (length ports)) ports
  /\ spawns (out (MultiPortConfig.main file env args))
     = zip_with (spawning env) (seq 0 (length ports)) ports.
Proof.
  cbv zeta.
  destruct (MultiPortConfig.help args || MultiPortConfig.listProfiles args)
    eqn:Hearly.
  { destruct (config_early file env args) as (_ & Hp & _ & es & Ho & Hes);
      [by left|].
    pose proof (quiet_spawns _ _ (config_early file env args (or_introl Hearly)))
      as Hs.
    unfold config_run_ports. rewrite Hearly, Hp, Hs. done. }
  destruct (MultiPortConfig.ports (config_of file) args) as [ps|] eqn:Hps.
  2:{ pose proof (config_early file env args (or_intror Hps)) as Hq.
      pose proof (quiet_spawns _ _ Hq) as Hs.
      destruct Hq as (_ & Hp & _).
      unfold config_run_ports. rewrite Hearly, Hps, Hp, Hs. done. }
  apply orb_false_iff in Hearly as [Hhelp Hlist].
  destruct (config_run file env args Hhelp Hlist) as (s0 & Hq & _ & ->);
    [by rewrite Hps|].
  pose proof (quiet_spawns _ _ Hq) as Hs.
  destruct Hq as (Hpenv & Hp & Hn & _).
  destruct (start_all_spec (config_run_ports file args) s0) as (_ & _ & Hp' & Ho').
  cbn [log emit processes out]. rewrite Hp', Ho', Hp, Hn, Hpenv.
  split; [done|].
  rewrite !spawns_app, spawns_starting, Hs. cbn. by rewrite app_nil_r.
Qed.

End ChildrenFacts.

Section StartedChildren.

(** X1.  No child is ever started on [NaN]: every port in [processes] after
    either script has run is a number, and no child gets [PORT=NaN]. *)
Theorem never_started_on_NaN :
  (forall env args,
     Forall real (map Entry.port (processes (MultiPort.main env args)))
     /\ Some (lit "NaN") ∉ spawn_ports (out (MultiPort.main env args)))
  /\ (forall file env args,
     Forall real (map Entry.port (processes (MultiPortConfig.main file env args)))
     /\ Some (lit "NaN") ∉ spawn_ports (out (MultiPortConfig.main file env args))).
Proof.
  assert (Hno : forall ps, Forall real ps -> Some (lit "NaN") ∉ map printed ps).
  { intros ps Hps Hin.
    apply list_elem_of_In, in_map_iff in Hin as (p & Hp & Hin%list_elem_of_In).
    rewrite Forall_forall in Hps. apply (Hps p Hin).
    injection Hp as Hp. by apply number_toString_inj. }
  split.
  - intros env args.
    pose proof (started_real _ (started_basic env args)) as Hreal.
    split; [done|].
    destruct (basic_children env args) as [H1 ->]. rewrite <- H1. by apply Hno.
  - intros file env args.
    pose proof (started_real _ (started_config file env args)) as Hreal.
    split; [done|].
    destruct (config_children file env args) as [H1 ->]. rewrite <- H1.
    by apply Hno.
Qed.

(** X2.  How the children are started.  The i-th port of the list gets the
    child with handle i; that child is [bun --hot src/index.tsx] with piped
    output, and its environment is the launcher's own with [PORT] set to the
    printed port (replacing any [PORT] the launcher had); [processes] holds
    one entry per port, in order, pairing the port with that handle. *)
Theorem children_started :
  (forall env args,
     let ports := if MultiPort.help args then [] else MultiPort.ports args in
     processes (MultiPort.main env args)
     = zip_with (fun child port => {| Entry.port := port; Entry.process := child |})
         (seq 0 (length ports)) ports
     /\ spawns (out (MultiPort.main env args))
        = zip_with (fun child port =>
                      Spawn child (lit "bun") [lit "--hot"; lit "src/index.tsx"]
                        (<[lit "PORT" := number_toString port]> env) (lit "pipe"))
            (seq 0 (length ports)) ports)
  /\ (forall file env args,
     let ports := config_run_ports file args in
     processes (MultiPortConfig.main file env args)
     = zip_with (fun child port => {| Entry.port := port; Entry.process := child |})
         (seq 0 (length ports)) ports
     /\ spawns (out (MultiPortConfig.main file env args))
        = zip_with (fun child port =>
                      Spawn child (lit "bun") [lit "--hot"; lit "src/index.tsx"]
                        (<[lit "PORT" := number_toString port]> env) (lit "pipe"))
            (seq 0 (length ports)) ports)
  /\ (forall (env : gmap jsstring jsstring) port key,
     key <> lit "PORT" ->
     (<[lit "PORT" := number_toString port]> env) !! key = env !! key).
Proof.
  split; [|split].
  - intros env args. apply children_basic.
  - intros file env args. apply children_config.
  - intros env port key Hkey. by rewrite lookup_insert_ne.
Qed.

Lemma children_started_witness :
  (<[lit "PORT" := number_toString (Num 3001)]>
     ({[ lit "HOME" := lit "/root" ]} : gmap jsstring jsstring))
    !! lit "HOME" = Some (lit "/root").
Proof.
  rewrite (proj2 (proj2 children_started)); [reflexivity|discriminate].
Defined.

(** X3.  Launcher and server agree on the port.  When the ports are
    integers a JavaScript number holds exactly, the server run in the
    environment of the i-th child computes, from [PORT], the very port the
    launcher recorded for that child in [processes] (the port of its tag). *)
Theorem server_port_is_launcher_port :
  (forall env args,
     Forall exact (map Entry.port (processes (MultiPort.main env args))) ->
     map (fun e => Server.port (child_env e)) (spawns (out (MultiPort.main env args)))
     = map Entry.port (processes (MultiPort.main env args)))
  /\ (forall file env args,
     Forall exact (map Entry.port (processes (MultiPortConfig.main file env args))) ->
     map (fun e => Server.port (child_env e))
         (spawns (out (MultiPortConfig.main file env args)))
     = map Entry.port (processes (MultiPortConfig.main file env args))).
Proof.
  split.
  - intros env args _. destruct (children_basic env args) as [-> ->].
    by rewrite ports_of_spawns, ports_of_entries by apply length_seq.
  - intros file env args _. destruct (children_config file env args) as [-> ->].
    by rewrite ports_of_spawns, ports_of_entries by apply length_seq.
Qed.

Lemma server_port_is_launcher_port_witness :
  map (fun e => Server.port (child_env e))
      (spawns (out (MultiPort.main ∅ [lit "8080"; lit "-1"])))
  = map Entry.port (processes (MultiPort.main ∅ [lit "8080"; lit "-1"])).
Proof.
  apply (proj1 server_port_is_launcher_port ∅ [lit "8080"; lit "-1"]).
  change (Forall exact [Num 8080; Num (-1)]).
  repeat constructor; by vm_compute.
Defined.

End StartedChildren.

Section ExitCodes.

Lemma ports_nonempty args : MultiPort.ports args <> [].
Proof.
  unfold MultiPort.ports.
  destruct (length (MultiPort.parse args) =? 0)%nat eqn:E; [done|].
  intros H. by rewrite H in E.
Qed.

(** X4.  The basic launcher either shows its help or serves.  With [--help]
    or [-h] anywhere among the arguments it prints the usage text, exits
    with code 0 and starts nothing, whatever else is given.  Otherwise it
    does not exit while starting up and starts at least one server. *)
Theorem basic_help_or_serve env args :
  (MultiPort.help args = true ->
   out (MultiPort.main env args) = [ConsoleLog MultiPort.usage; ProcessExit 0]
   /\ processes (MultiPort.main env args) = [])
  /\ (MultiPort.help args = false ->
      exits (out (MultiPort.main env args)) = []
      /\ processes (MultiPort.main env args) <> []
      /\ length (spawns (out (MultiPort.main env args)))
         = length (processes (MultiPort.main env args))).
Proof.
  split; intros Hhelp.
  - unfold MultiPort.main. by rewrite Hhelp.
  - pose proof (children_basic env args) as [Hp Hs]. rewrite Hhelp in Hp, Hs.
    cbv zeta in Hp, Hs. rewrite Hp, Hs. split; [|split].
    + unfold MultiPort.main. rewrite Hhelp.
      fold (start_all (log (MultiPort.banner (MultiPort.ports args)) (initial env))
                      (MultiPort.ports args)).
      cbn [log emit out]. unfold exits at 1. rewrite omap_app.
      fold (exits (out (start_all
        (log (MultiPort.banner (MultiPort.ports args)) (initial env))
        (MultiPort.ports args)))).
      by rewrite exits_start_all.
    + pose proof (ports_nonempty args) as Hne.
      by destruct (MultiPort.ports args).
    + by rewrite !length_zip_with.
Qed.

Lemma basic_help_or_serve_witness :
  out (MultiPort.main ∅ [lit "3000"; lit "-h"])
  = [ConsoleLog MultiPort.usage; ProcessExit 0]
  /\ processes (MultiPort.main ∅ [lit "--ports"; lit "x"]) <> [].
Proof.
  split.
  - apply (proj1 (basic_help_or_serve ∅ [lit "3000"; lit "-h"])). reflexivity.
  - apply (proj2 (basic_help_or_serve ∅ [lit "--ports"; lit "x"])). reflexivity.
Defined.

Lemma ports_None cfg args :
  MultiPortConfig.ports cfg args = None <-> exists name, unknown_profile cfg args name.
Proof.
  unfold MultiPortConfig.ports.
  pose proof (determine_outcome cfg args (initial ∅)) as H.
  split.
  - destruct (MultiPortConfig.determine cfg args (initial ∅)) as [[ps|] s];
      [done|].
    destruct H as (i & name & Hi & Hn & Hprof & _). intros _. by exists name, i.
  - intros (name & i & Hi & Hn & Hprof).
    unfold MultiPortConfig.determine in *. rewrite Hi, Nat.add_1_r, Hn in *.
    destruct (MultiPortConfig.get_profile cfg name) as [[[ps|] d]|]; try done.
    by specialize (Hprof _ eq_refl).
Qed.

(** X5.  Exit codes of the config-based launcher.  With [--help], [-h],
    [--list] or [-l] it exits with code 0.  Otherwise it exits with code 1
    exactly when the first [--profile] that is followed by a value names no
    profile with a [ports] property (an unknown name, [defaultPorts], or a
    profile without ports), after an error line naming that profile; in
    every other case it keeps running.  Whenever it exits while starting up,
    it has started no child. *)
Theorem config_exit_codes file env args :
  exits (out (MultiPortConfig.main file env args))
  = (if MultiPortConfig.help args || MultiPortConfig.listProfiles args then [0%Z]
     else match MultiPortConfig.ports (config_of file) args with
          | None => [1%Z]
          | Some _ => []
          end)
  /\ (exits (out (MultiPortConfig.main file env args)) <> [] ->
      processes (MultiPortConfig.main file env args) = []
      /\ spawns (out (MultiPortConfig.main file env args)) = [])
  /\ (MultiPortConfig.ports (config_of file) args = None
      <-> exists name, unknown_profile (config_of file) args name)
  /\ (forall name,
        MultiPortConfig.help args || MultiPortConfig.listProfiles args = false ->
        unknown_profile (config_of file) args name ->
        ConsoleError (cross_mark ++ lit " Profile '" ++ name
                      ++ lit "' not found in ports.config.json")
        ∈ out (MultiPortConfig.main file env args)).
Proof.
  assert (Hexits :
    exits (out (MultiPortConfig.main file env args))
    = (if MultiPortConfig.help args || MultiPortConfig.listProfiles args then [0%Z]
       else match MultiPortConfig.ports (config_of file) args with
            | None => [1%Z]
            | Some _ => []
            end)
    /\ (forall name,
        MultiPortConfig.help args || MultiPortConfig.listProfiles args = false ->
        unknown_profile (config_of file) args name ->
        ConsoleError (cross_mark ++ lit " Profile '" ++ name
                      ++ lit "' not found in ports.config.json")
        ∈ out (MultiPortConfig.main file env args))).
  { destruct (MultiPortConfig.help args) eqn:Hhelp; cbn [orb].
    { split; [|done]. unfold MultiPortConfig.main.
      pose proof (adds_exits _ _ (adds_load file env)) as H0.
      destruct (MultiPortConfig.load file (initial env)) as [cfg s0].
      rewrite Hhelp. cbn [log emit out snd] in *.
      unfold exits in *. by rewrite !omap_app, H0. }
    destruct (MultiPortConfig.listProfiles args) eqn:Hlist.
    { split; [|done]. unfold MultiPortConfig.main.
      pose proof (adds_load file env) as H0.
      destruct (MultiPortConfig.load file (initial env)) as [cfg s0].
      rewrite Hhelp, Hlist. cbn [snd] in H0.
      pose proof (adds_exits _ _ (adds_trans _ _ _ _ H0 (adds_list_all cfg s0))) as H1.
      cbn [emit out]. unfold exits in *. by rewrite omap_app, H1. }
    destruct (MultiPortConfig.ports (config_of file) args) as [ps|] eqn:Hps.
    { split.
      - destruct (config_run file env args Hhelp Hlist) as (s0 & _ & Ha & ->);
          [by rewrite Hps|].
        cbn [log emit out]. unfold exits at 1. rewrite omap_app.
        fold (exits (out (start_all s0 (config_run_ports file args)))).
        rewrite exits_start_all, (adds_exits _ _ Ha). done.
      - intros name _ Hname.
        assert (MultiPortConfig.ports (config_of file) args = None)
          by (apply ports_None; eauto).
        congruence. }
    unfold MultiPortConfig.main, MultiPortConfig.ports in *.
    pose proof (adds_exits _ _ (adds_load file env)) as H0.
    destruct (load_keeps file env) as (Hc & _ & _).
    destruct (MultiPortConfig.load file (initial env)) as [cfg s0].
    cbn [fst snd] in *. subst cfg. rewrite Hhelp, Hlist.
    rewrite (determine_fst _ _ (initial ∅) s0) in Hps.
    pose proof (determine_outcome (config_of file) args s0) as Hd.
    destruct (MultiPortConfig.determine (config_of file) args s0) as [[qs|] s1];
      [done|].
    destruct Hd as (i & name & Hi & Hn & Hprof & ->). split.
    - unfold exits in *. by rewrite omap_app, H0.
    - intros name' _ (i' & Hi' & Hn' & _).
      assert (i' = i) as -> by congruence.
      assert (name' = name) as -> by congruence.
      apply elem_of_app. right. apply list_elem_of_here. }
  destruct Hexits as [Hexits Herr].
  split; [done|]. split; [|split; [apply ports_None|done]].
  rewrite Hexits. intros Hne.
  assert (Hearly : MultiPortConfig.help args || MultiPortConfig.listProfiles args = true
                   \/ MultiPortConfig.ports (config_of file) args = None).
  { destruct (_ || _); [by left|].
    destruct (MultiPortConfig.ports _ _); [done|by right]. }
  pose proof (config_early file env args Hearly) as Hq.
  pose proof (quiet_spawns _ _ Hq) as Hs.
  by destruct Hq as (_ & -> & _).
Qed.

Lemma config_exit_codes_witness :
  processes (MultiPortConfig.main MultiPortConfig.Missing ∅
               [lit "--profile"; lit "defaultPorts"]) = []
  /\ spawns (out (MultiPortConfig.main MultiPortConfig.Missing ∅
                    [lit "--profile"; lit "defaultPorts"])) = [].
Proof.
  apply (config_exit_codes MultiPortConfig.Missing ∅
           [lit "--profile"; lit "defaultPorts"]).
  discriminate.
Defined.

End ExitCodes.

(** ** Arguments that are printed ports *)

Section RoundTrips.

Lemma tokens_not_flag flag zs :
  parseInt flag = NaN -> arr_includes flag (tokens zs) = false.
Proof.
  intros Hflag. unfold arr_includes. apply bool_decide_eq_false. intros Hin.
  apply list_elem_of_In, in_map_iff in Hin as (z & Hz & _).
  by apply (not_a_flag flag z).
Qed.

Lemma tokens_flags zs :
  Forall (fun flag => arr_includes flag (tokens zs) = false) launcher_flags.
Proof. repeat constructor; by apply tokens_not_flag. Qed.

Lemma tokens_parsed zs :
  filter (fun p => isNaN p = false) (map parseInt (tokens zs)) = map Num zs.
Proof.
  induction zs as [|z zs IH]; [done|]. cbn [tokens map].
  rewrite filter_cons, parseInt_toString, decide_True by done.
  f_equal. apply IH.
Qed.

Lemma tokens_parse zs : MultiPort.parse (tokens zs) = map Num zs.
Proof.
  unfold MultiPort.parse.
  rewrite (tokens_not_flag (lit "--default")) by reflexivity.
  rewrite absent_findIndex by (by apply tokens_not_flag).
  rewrite positional_filter. apply tokens_parsed.
Qed.

(** X6.  Round trip through the individual arguments.  Given a non-empty
    list of integers (that a JavaScript number holds exactly) printed as the
    arguments, either launcher starts one child per integer, in that order,
    with exactly that printed integer as [PORT]; the configuration file
    plays no part. *)
Theorem printed_arguments_round_trip env file zs :
  zs <> [] -> Forall (fun z => exact (Num z)) zs ->
  MultiPort.ports (tokens zs) = map Num zs
  /\ spawn_ports (out (MultiPort.main env (tokens zs))) = map Some (tokens zs)
  /\ MultiPortConfig.ports (config_of file) (tokens zs) = Some (map Num zs)
  /\ spawn_ports (out (MultiPortConfig.main file env (tokens zs)))
     = map Some (tokens zs).
Proof.
  intros Hzs _.
  assert (Hne : MultiPort.parse (tokens zs) <> []).
  { rewrite tokens_parse. by destruct zs. }
  assert (Hports : MultiPort.ports (tokens zs) = map Num zs).
  { unfold MultiPort.ports. rewrite tokens_parse.
    destruct zs; [done|reflexivity]. }
  assert (Hprinted : map printed (map Num zs) = map Some (tokens zs)).
  { unfold tokens. by rewrite !map_map. }
  destruct (ports_agree (config_of file) _ (tokens_flags zs) Hne)
    as (Hhelp & _ & _ & _ & Hdet & Hfb).
  split; [done|]. split; [|split].
  - by rewrite (proj2 (basic_children _ _)), Hhelp, Hports.
  - unfold MultiPortConfig.ports. rewrite Hdet. cbn [fst]. rewrite Hfb.
    cbn [fst]. by rewrite tokens_parse.
  - rewrite (proj2 (config_children _ _ _)).
    by rewrite (run_ports_agree _ _ (tokens_flags zs) Hne), Hports.
Qed.

Lemma printed_arguments_round_trip_witness :
  spawn_ports (out (MultiPort.main ∅ (tokens [-1; 0; 70000]%Z)))
  = map Some (tokens [-1; 0; 70000]%Z).
Proof.
  apply (printed_arguments_round_trip ∅ MultiPortConfig.Missing [-1; 0; 70000]%Z).
  - discriminate.
  - repeat constructor; by vm_compute.
Defined.

End RoundTrips.

(** ** White space around the pieces of a port list *)

Section Trimming.

Lemma parseInt_trimmed s : parseInt s = parse_trimmed (trimStart s).
Proof. reflexivity. Qed.

Lemma whitespace_not_numeric c :
  is_whitespace c = true ->
  is_digit c = false /\ (c =? 0x2B) = false /\ (c =? 0x2D) = false.
Proof.
  intros Hc. split; [|split].
  - destruct (is_digit c) eqn:E; [|done].
    apply digit_plain in E as [E _]. congruence.
  - destruct (N.eqb_spec c 0x2B) as [->|]; [discriminate Hc|done].
  - destruct (N.eqb_spec c 0x2D) as [->|]; [discriminate Hc|done].
Qed.

Lemma trimStart_split s :
  exists ws, s = ws ++ trimStart s /\ blank ws
             /\ match trimStart s with
                | [] => True
                | c :: _ => is_whitespace c = false
                end.
Proof.
  induction s as [|c s (ws & Hs & Hws & Hhead)].
  { exists []. split; [done|]. split; [constructor|done]. }
  cbn [trimStart]. destruct (is_whitespace c) eqn:Hc.
  - exists (c :: ws). split; [by rewrite <- app_comm_cons, <- Hs|].
    split; [by constructor|done].
  - exists []. split; [done|]. split; [constructor|done].
Qed.

Lemma trimStart_blank ws s :
  blank ws -> trimStart (ws ++ s) = trimStart s.
Proof. induction 1 as [|c ws Hc _ IH]; [done|]. cbn. by rewrite Hc. Qed.

Lemma trimStart_head c s :
  is_whitespace c = false -> trimStart (c :: s) = c :: s.
Proof. intros Hc. cbn. by rewrite Hc. Qed.

Lemma trimEnd_split s : exists ws, s = trimEnd s ++ ws /\ blank ws.
Proof.
  unfold trimEnd. destruct (trimStart_split (reverse s)) as (ws & Hs & Hws & _).
  exists (reverse ws). split; [|by apply Forall_reverse].
  rewrite <- reverse_app, <- Hs. by rewrite reverse_involutive.
Qed.

Lemma digits_prefix_blank a ws :
  blank ws -> digits_prefix (a ++ ws) = digits_prefix a.
Proof.
  intros Hws. induction a as [|c a IH]; cbn.
  - destruct Hws as [|w ws Hw _]; [done|]. cbn.
    by rewrite (proj1 (whitespace_not_numeric _ Hw)).
  - by rewrite IH.
Qed.

Lemma parse_trimmed_blank y ws :
  blank ws -> parse_trimmed (y ++ ws) = parse_trimmed y.
Proof.
  intros Hws. destruct y as [|c r].
  - destruct Hws as [|w ws Hw Hws]; [done|].
    destruct (whitespace_not_numeric _ Hw) as (Hd & Hp & Hm).
    unfold parse_trimmed. cbn [app]. rewrite Hp, Hm. cbn [orb digits_prefix].
    by rewrite Hd.
  - unfold parse_trimmed. rewrite <- app_comm_cons.
    destruct ((c =? 0x2B) || (c =? 0x2D)).
    + by rewrite digits_prefix_blank.
    + by rewrite app_comm_cons, digits_prefix_blank.
Qed.

Lemma parseInt_trim s : parseInt (trim s) = parseInt s.
Proof.
  rewrite !parseInt_trimmed. unfold trim.
  destruct (trimStart_split s) as (_ & _ & _ & Hhead).
  destruct (trimEnd_split (trimStart s)) as (ws & Hx & Hws).
  assert (Hy : trimStart (trimEnd (trimStart s)) = trimEnd (trimStart s)).
  { destruct (trimEnd (trimStart s)) as [|c r] eqn:E; [done|].
    rewrite Hx in Hhead. cbn in Hhead. by apply trimStart_head. }
  rewrite Hy. rewrite Hx at 2. by rewrite parse_trimmed_blank.
Qed.

Lemma from_list_untrimmed portsString :
  MultiPort.from_list portsString
  = filter (fun p => isNaN p = false) (map parseInt (split comma portsString))
  /\ MultiPortConfig.from_list portsString
     = filter (fun p => isNaN p = false) (map parseInt (split comma portsString)).
Proof.
  assert (H : map (fun p => parseInt (trim p)) (split comma portsString)
              = map parseInt (split comma portsString)).
  { apply map_ext. intros p. apply parseInt_trim. }
  unfold MultiPortConfig.from_list, MultiPort.from_list. by rewrite H.
Qed.

(** X7.  The [trim] in the parsing of a [--ports] value changes nothing:
    [parseInt] skips leading white space and stops at the first character
    that is not a digit, so every piece parses to the same number with or
    without it.  White space around the commas is therefore harmless, and
    so is anything that follows the digits of a piece. *)
Theorem ports_value_trim_is_redundant portsString :
  MultiPort.from_list portsString
  = filter (fun p => isNaN p = false) (map parseInt (split comma portsString))
  /\ MultiPortConfig.from_list portsString
     = filter (fun p => isNaN p = false) (map parseInt (split comma portsString))
  /\ forall s, parseInt (trim s) = parseInt s.
Proof.
  destruct (from_list_untrimmed portsString) as [H1 H2].
  split; [done|]. split; [done|]. apply parseInt_trim.
Qed.

End Trimming.

(** ** A port list that is printed ports *)

Section PortLists.

Lemma plain_comma_free s : Forall plain s -> comma_free s.
Proof. intros H. eapply Forall_impl; [exact H|]. by intros c [_ Hc]. Qed.

Lemma blank_comma_free ws : blank ws -> comma_free ws.
Proof.
  intros H. eapply Forall_impl; [exact H|]. intros c Hc.
  destruct (N.eqb_spec c comma) as [->|]; [discriminate Hc|done].
Qed.

Lemma split_free a : comma_free a -> split comma a = [a].
Proof. induction 1 as [|c a Hc _ IH]; [done|]. cbn [split]. by rewrite Hc, IH. Qed.

Lemma split_nonempty s : split comma s <> [].
Proof.
  induction s as [|c s IH]; [done|]. cbn [split].
  destruct (c =? comma); [done|]. by destruct (split comma s).
Qed.

Lemma split_prepend a x :
  comma_free a ->
  split comma (a ++ x)
  = (a ++ hd [] (split comma x)) :: tl (split comma x).
Proof.
  induction 1 as [|c a Hc _ IH].
  - cbn. pose proof (split_nonempty x). by destruct (split comma x).
  - cbn [app split]. by rewrite Hc, IH.
Qed.

Lemma split_at_comma a x :
  comma_free a -> split comma (a ++ comma :: x) = a :: split comma x.
Proof.
  intros Ha. rewrite split_prepend by done. cbn [split].
  change (comma =? comma) with true. cbn. by rewrite app_nil_r.
Qed.

Lemma split_join ws p ps :
  comma_free ws -> comma_free p -> Forall comma_free ps ->
  split comma (join (comma :: ws) (p :: ps)) = p :: map (app ws) ps.
Proof.
  intros Hws Hp Hps. revert p Hp.
  induction Hps as [|q ps Hq _ IH]; intros p Hp.
  - by apply split_free.
  - change (join (comma :: ws) (p :: q :: ps))
      with (p ++ (comma :: ws) ++ join (comma :: ws) (q :: ps)).
    rewrite <- app_comm_cons, split_at_comma by done.
    rewrite split_prepend, IH by done. done.
Qed.

Lemma parseInt_blank ws s : blank ws -> parseInt (ws ++ s) = parseInt s.
Proof. intros Hws. by rewrite !parseInt_trimmed, trimStart_blank. Qed.

Lemma digits_prefix_junk ds c junk :
  Forall (fun d => is_digit d = true) ds -> is_digit c = false ->
  digits_prefix (ds ++ c :: junk) = ds.
Proof.
  intros Hds Hc. induction Hds as [|d ds Hd _ IH]; cbn; [by rewrite Hc|].
  by rewrite Hd, IH.
Qed.

(** A printed integer followed by something that does not start with a
    digit still parses to that integer. *)
Lemma parseInt_junk z c junk :
  is_digit c = false ->
  parseInt (number_toString (Num z) ++ c :: junk) = Num z.
Proof.
  intros Hc. rewrite <- (parseInt_toString (Num z)) at 2.
  unfold number_toString. destruct (z <? 0)%Z.
  - destruct (decimal_spec (Z.to_N (- z))) as (Hall & _ & _).
    rewrite !parseInt_trimmed, <- app_comm_cons.
    rewrite !trimStart_head by reflexivity.
    unfold parse_trimmed. change ((0x2D =? 0x2B) || (0x2D =? 0x2D)) with true.
    cbv iota. by rewrite digits_prefix_junk, digits_prefix_all.
  - destruct (decimal_spec (Z.to_N z)) as (Hall & _ & Hne).
    destruct (decimal (Z.to_N z)) as [|d ds] eqn:E; [done|].
    pose proof (Forall_inv Hall) as Hd. cbn beta in Hd.
    destruct (digit_plain d Hd) as (Hws & Hplus & Hminus).
    rewrite !parseInt_trimmed, <- app_comm_cons.
    rewrite !trimStart_head by done.
    unfold parse_trimmed. rewrite Hplus, Hminus. cbn [orb].
    by rewrite app_comm_cons, digits_prefix_junk, digits_prefix_all.
Qed.

Lemma tokens_comma_free zs : Forall comma_free (tokens zs).
Proof.
  apply Forall_forall. intros tok Hin.
  apply list_elem_of_In, in_map_iff in Hin as (z & <- & _).
  apply plain_comma_free, toString_plain.
Qed.

Lemma from_list_join ws zs :
  blank ws -> zs <> [] ->
  MultiPort.from_list (join (comma :: ws) (tokens zs)) = map Num zs.
Proof.
  intros Hws Hzs. rewrite (proj1 (from_list_untrimmed _)).
  destruct zs as [|z zs]; [done|].
  rewrite <- (tokens_parsed (z :: zs)). f_equal.
  pose proof (tokens_comma_free (z :: zs)) as Hfree.
  change (tokens (z :: zs)) with (number_toString (Num z) :: tokens zs) in *.
  apply Forall_cons in Hfree as [Hz Hfree].
  rewrite split_join by (done || by apply blank_comma_free).
  cbn [map]. f_equal.
  rewrite map_map. apply map_ext. intros tok. by apply parseInt_blank.
Qed.

End PortLists.

Section PortListRoundTrip.

Lemma value_is_number ws z zs :
  parseInt (join (comma :: ws) (tokens (z :: zs))) = Num z.
Proof.
  destruct zs as [|z' zs]; [apply (parseInt_toString (Num z))|].
  change (join (comma :: ws) (tokens (z :: z' :: zs)))
    with (number_toString (Num z)
          ++ comma :: (ws ++ join (comma :: ws) (tokens (z' :: zs)))).
  by apply parseInt_junk.
Qed.

(** X8.  Round trip through [--ports].  Given [--ports] followed by a
    non-empty list of integers (that a JavaScript number holds exactly)
    printed and joined by commas, each comma optionally followed by white
    space (as in the list the launcher itself prints, joined by [", "]),
    either launcher starts one child per integer, in that order, with that
    printed integer as [PORT]. *)
Theorem port_list_round_trip env file ws zs :
  blank ws -> zs <> [] -> Forall (fun z => exact (Num z)) zs ->
  MultiPort.ports [lit "--ports"; join (comma :: ws) (tokens zs)] = map Num zs
  /\ spawn_ports (out (MultiPort.main env
                         [lit "--ports"; join (comma :: ws) (tokens zs)]))
     = map Some (tokens zs)
  /\ MultiPortConfig.ports (config_of file)
       [lit "--ports"; join (comma :: ws) (tokens zs)] = Some (map Num zs)
  /\ spawn_ports (out (MultiPortConfig.main file env
                         [lit "--ports"; join (comma :: ws) (tokens zs)]))
     = map Some (tokens zs).
Proof.
  intros Hws Hzs _. destruct zs as [|z zs]; [done|].
  set (value := join (comma :: ws) (tokens (z :: zs))).
  assert (Hvalue : forall flag, parseInt flag = NaN -> flag <> value).
  { intros flag Hflag ->. unfold value in Hflag.
    by rewrite value_is_number in Hflag. }
  assert (Hflags : Forall (fun flag => arr_includes flag [lit "--ports"; value] = false)
                          launcher_flags).
  { repeat constructor; apply absent_pair; try discriminate; by apply Hvalue. }
  assert (Hparse : MultiPort.parse [lit "--ports"; value] = map Num (z :: zs)).
  { unfold MultiPort.parse.
    rewrite absent_pair by (discriminate || by apply Hvalue).
    change (findIndex _ (lit "--ports" :: _)) with (Some 0%nat).
    cbn [lookup list_lookup Nat.add]. by apply from_list_join. }
  assert (Hne : MultiPort.parse [lit "--ports"; value] <> []) by (by rewrite Hparse).
  assert (Hports : MultiPort.ports [lit "--ports"; value] = map Num (z :: zs)).
  { unfold MultiPort.ports. by rewrite Hparse. }
  assert (Hprinted : map printed (map Num (z :: zs)) = map Some (tokens (z :: zs))).
  { unfold tokens. by rewrite !map_map. }
  destruct (ports_agree (config_of file) _ Hflags Hne)
    as (Hhelp & _ & _ & _ & Hdet & Hfb).
  split; [done|]. split; [|split].
  - by rewrite (proj2 (basic_children _ _)), Hhelp, Hports.
  - unfold MultiPortConfig.ports. rewrite Hdet. cbn [fst]. rewrite Hfb.
    cbn [fst]. by rewrite Hparse.
  - rewrite (proj2 (config_children _ _ _)).
    by rewrite (run_ports_agree _ _ Hflags Hne), Hports.
Qed.

Lemma port_list_round_trip_witness :
  spawn_ports (out (MultiPort.main ∅
                      [lit "--ports"; join (lit ", ") (tokens [4000; 4001; 4002]%Z)]))
  = map Some (tokens [4000; 4001; 4002]%Z).
Proof.
  apply (port_list_round_trip ∅ MultiPortConfig.Missing (lit " ")
           [4000; 4001; 4002]%Z).
  - by repeat constructor.
  - discriminate.
  - repeat constructor; by vm_compute.
Defined.

End PortListRoundTrip.

(** ** Which arguments count *)

Section Precedence.

Lemma findIndex_first flag (pre rest : list jsstring) :
  flag ∉ pre ->
  findIndex (fun arg => arg = flag) (pre ++ flag :: rest) = Some (length pre).
Proof.
  intros Hpre. unfold findIndex.
  assert (H : list_find (fun arg => arg = flag) (pre ++ flag :: rest)
              = Some (length pre, flag)); [|by rewrite H].
  apply list_find_Some. split; [apply list_lookup_middle; done|].
  split; [done|]. intros j y Hj Hlt ->.
  rewrite lookup_app_l in Hj by done.
  by apply list_elem_of_lookup_2 in Hj.
Qed.

Lemma lookup_after (pre : list jsstring) flag v post :
  (pre ++ flag :: v :: post) !! S (length pre) = Some v.
Proof.
  change (pre ++ flag :: v :: post) with (pre ++ [flag] ++ v :: post).
  rewrite app_assoc.
  apply list_lookup_middle. rewrite length_app. cbn. lia.
Qed.

Lemma lookup_past (pre : list jsstring) flag :
  (pre ++ [flag]) !! S (length pre) = None.
Proof. apply lookup_ge_None. rewrite length_app. cbn. lia. Qed.

Lemma positional_trailing_flag pre :
  MultiPort.positional (pre ++ [lit "--ports"]) = MultiPort.positional pre.
Proof.
  rewrite !positional_filter, map_app, filter_app. cbn [map].
  rewrite filter_cons, decide_False by done. by rewrite filter_nil, app_nil_r.
Qed.

(** X9.  Only the first [--ports] counts, and it silences the individual
    arguments.  When the first [--ports] is followed by a value, the port
    list is read from that value alone: ports given as arguments before or
    after it, and any later [--ports], are ignored (in the basic launcher
    unless [--default] is present).  A [--ports] that is the last argument
    has no value and is itself ignored: the individual arguments are read. *)
Theorem first_ports_flag_wins pre value post :
  lit "--ports" ∉ pre ->
  (arr_includes (lit "--default") (pre ++ lit "--ports" :: value :: post) = false ->
   MultiPort.parse (pre ++ lit "--ports" :: value :: post)
   = MultiPort.from_list value)
  /\ MultiPortConfig.parse (pre ++ lit "--ports" :: value :: post)
     = MultiPortConfig.from_list value
  /\ (arr_includes (lit "--default") (pre ++ [lit "--ports"]) = false ->
      MultiPort.parse (pre ++ [lit "--ports"]) = MultiPort.positional pre)
  /\ MultiPortConfig.parse (pre ++ [lit "--ports"])
     = MultiPortConfig.positional pre.
Proof.
  intros Hpre.
  assert (H1 : MultiPortConfig.parse (pre ++ lit "--ports" :: value :: post)
               = MultiPortConfig.from_list value).
  { unfold MultiPortConfig.parse.
    by rewrite findIndex_first, Nat.add_1_r, lookup_after. }
  assert (H2 : MultiPortConfig.parse (pre ++ [lit "--ports"])
               = MultiPortConfig.positional pre).
  { unfold MultiPortConfig.parse.
    rewrite findIndex_first, Nat.add_1_r, lookup_past by done.
    by rewrite !positional_same, positional_trailing_flag. }
  split; [|split; [exact H1|split; [|exact H2]]].
  - intros Hd. by rewrite <- (parse_config_basic _ Hd), H1.
  - intros Hd. by rewrite <- (parse_config_basic _ Hd), H2, positional_same.
Qed.

Lemma first_ports_flag_wins_witness :
  MultiPort.parse ([lit "4000"] ++ lit "--ports" :: lit "5000,5001"
                   :: [lit "6000"; lit "--ports"; lit "7000"])
  = MultiPort.from_list (lit "5000,5001").
Proof.
  apply (first_ports_flag_wins [lit "4000"] (lit "5000,5001")
           [lit "6000"; lit "--ports"; lit "7000"]).
  all: try reflexivity.
  by apply (bool_decide_unpack (lit "--ports" ∉ [lit "4000"])).
Defined.

(** X10.  [--profile] beats everything else in the config-based launcher.
    When the first [--profile] is followed by the name of a profile that has
    ports, the port list is that array and neither [--ports] nor the other
    arguments are looked at; if the array is empty, the launcher goes on as
    if no port had been given and uses its defaults (the development
    profile, else [defaultPorts], else 3000..3003). *)
Theorem profile_flag_wins cfg pre name post prof ps :
  lit "--profile" ∉ pre ->
  MultiPortConfig.get_profile cfg name = Some prof ->
  MultiPortConfig.profile_ports prof = Some ps ->
  MultiPortConfig.ports cfg (pre ++ lit "--profile" :: name :: post)
  = Some (match ps with
          | _ :: _ => MultiPortConfig.numbers ps
          | [] =>
              match MultiPortConfig.get_profile cfg (lit "development") with
              | Some {| MultiPortConfig.profile_ports := Some dev |} =>
                  MultiPortConfig.numbers dev
              | _ =>
                  match MultiPortConfig.defaultPorts cfg with
                  | Some dps => MultiPortConfig.numbers dps
                  | None => [Num 3000; Num 3001; Num 3002; Num 3003]
                  end
              end
          end).
Proof.
  intros Hpre Hprof Hps.
  unfold MultiPortConfig.ports, MultiPortConfig.determine.
  rewrite findIndex_first, Nat.add_1_r, lookup_after, Hprof by done.
  destruct prof as [pp d]. cbn in Hps. subst pp.
  destruct d as [[|c d]|]; cbn [fst]; f_equal;
    unfold MultiPortConfig.fallback;
    (destruct ps as [|z ps]; [|done]); cbn [length Nat.eqb MultiPortConfig.numbers map];
    by destruct (MultiPortConfig.get_profile cfg (lit "development"))
      as [[[?|] ?]|].
Qed.

Lemma profile_flag_wins_witness :
  MultiPortConfig.ports
    {| MultiPortConfig.defaultPorts := None;
       MultiPortConfig.profiles :=
         [(lit "testing",
           {| MultiPortConfig.profile_ports := Some [4000; 4001]%Z;
              MultiPortConfig.description := None |})] |}
    ([lit "9000"] ++ lit "--profile" :: lit "testing" :: [lit "--ports"; lit "1,2"])
  = Some [Num 4000; Num 4001].
Proof.
  apply (profile_flag_wins _ [lit "9000"] (lit "testing") [lit "--ports"; lit "1,2"]
           {| MultiPortConfig.profile_ports := Some [4000; 4001]%Z;
              MultiPortConfig.description := None |} [4000; 4001]%Z).
  - by apply (bool_decide_unpack (lit "--profile" ∉ [lit "9000"])).
  - reflexivity.
  - reflexivity.
Defined.

End Precedence.

(** ** Signals and the life of the children *)

Section Signals.

Lemma term_loop_out (l : list entry) : forall s,
  out (foldl (fun st e => emit (Kill (Entry.process e) SIGTERM) st) s l)
  = out s ++ map terminating l.
Proof.
  induction l as [|e l IH]; intros s; cbn [foldl map].
  - by rewrite app_nil_r.
  - rewrite IH. cbn [emit out]. by rewrite <- app_assoc.
Qed.

Lemma on_SIGTERM_performed s :
  performed MultiPort.on_SIGTERM s
  = ConsoleLog (nl ++ stop_sign ++ lit " Received SIGTERM, shutting down...")
    :: map terminating (processes s) ++ [ProcessExit 0].
Proof.
  unfold performed, MultiPort.on_SIGTERM. cbn [emit out].
  rewrite term_loop_out. cbn [log emit out processes].
  rewrite <- !app_assoc. by rewrite drop_app_length.
Qed.

Lemma on_SIGINT_out s :
  out (MultiPort.on_SIGINT s)
  = out s ++ ConsoleLog (nl ++ stop_sign ++ lit " Shutting down all servers...")
             :: flat_map stopping (processes s) ++ [SetTimeout 1000].
Proof.
  unfold MultiPort.on_SIGINT.
  destruct (stop_loop (processes s)
              (log (nl ++ stop_sign ++ lit " Shutting down all servers...") s))
    as [_ H2].
  cbv zeta in H2. cbn [emit out].
  change (processes (log (nl ++ stop_sign ++ lit " Shutting down all servers...") s))
    with (processes s) in *.
  rewrite H2. cbn [log emit out]. by rewrite <- !app_assoc.
Qed.

Lemma on_SIGTERM_out s :
  out (MultiPort.on_SIGTERM s)
  = out s ++ ConsoleLog (nl ++ stop_sign ++ lit " Received SIGTERM, shutting down...")
             :: map terminating (processes s) ++ [ProcessExit 0].
Proof.
  unfold MultiPort.on_SIGTERM. cbn [emit out].
  rewrite term_loop_out. cbn [log emit out processes].
  by rewrite <- !app_assoc.
Qed.

Lemma kills_terminating l :
  kills (map terminating l) = map (fun e => (Entry.process e, SIGTERM)) l.
Proof. induction l as [|e l IH]; [done|]. cbn. by rewrite <- IH. Qed.

Lemma sigint_kills s :
  kills (performed MultiPort.on_SIGINT s)
  = map (fun e => (Entry.process e, SIGTERM)) (processes s).
Proof.
  rewrite (proj2 (on_SIGINT_spec s)).
  change (ConsoleLog ?m :: ?l) with ([ConsoleLog m] ++ l).
  unfold kills. rewrite !omap_app. cbn [omap].
  fold (kills (flat_map stopping (processes s))).
  by rewrite kills_stopping, app_nil_r.
Qed.

Lemma sigterm_kills s :
  kills (performed MultiPort.on_SIGTERM s)
  = map (fun e => (Entry.process e, SIGTERM)) (processes s).
Proof.
  rewrite on_SIGTERM_performed.
  change (ConsoleLog ?m :: ?l) with ([ConsoleLog m] ++ l).
  unfold kills. rewrite !omap_app. cbn [omap].
  fold (kills (map terminating (processes s))).
  by rewrite kills_terminating, app_nil_r.
Qed.

(** X11.  The two ways to stop.  On SIGTERM a launcher signals every
    recorded child and exits with code 0 at once.  On SIGINT it signals
    every recorded child but does not exit: it arms a timer of 1000 ms, and
    it is the timer that prints the closing line and exits with code 0,
    whether or not the children have exited by then. *)
Theorem two_ways_to_stop s :
  performed MultiPort.on_SIGTERM s
  = ConsoleLog (nl ++ stop_sign ++ lit " Received SIGTERM, shutting down...")
    :: map (fun e => Kill (Entry.process e) SIGTERM) (processes s)
    ++ [ProcessExit 0]
  /\ performed MultiPortConfig.on_SIGTERM s = performed MultiPort.on_SIGTERM s
  /\ exits (performed MultiPort.on_SIGINT s) = []
  /\ last (performed MultiPort.on_SIGINT s) = Some (SetTimeout 1000)
  /\ performed MultiPortConfig.on_SIGINT s = performed MultiPort.on_SIGINT s
  /\ performed MultiPort.on_timeout s
     = [ConsoleLog (check_mark ++ lit " All servers stopped"); ProcessExit 0]
  /\ performed MultiPortConfig.on_timeout s = performed MultiPort.on_timeout s.
Proof.
  split; [apply on_SIGTERM_performed|]. split; [reflexivity|].
  split; [|split; [|split; [reflexivity|]]];
    rewrite ?(proj2 (on_SIGINT_spec s)).
  - change (ConsoleLog ?m :: ?l) with ([ConsoleLog m] ++ l).
    unfold exits. rewrite !omap_app. cbn [omap].
    replace (omap _ (flat_map stopping (processes s))) with (@nil Z);
      [reflexivity|].
    induction (processes s) as [|e l IH]; [reflexivity|exact IH].
  - change (ConsoleLog ?m :: ?l ++ ?k) with ((ConsoleLog m :: l) ++ k).
    apply last_snoc.
  - split; [|reflexivity]. unfold performed. cbn. rewrite <- app_assoc.
    by rewrite drop_app_length.
Qed.

End Signals.

Section Lifetime.

Lemma adds_spawns s s' : adds no_spawn s s' -> spawns (out s') = spawns (out s).
Proof.
  intros (es & -> & Hes). rewrite spawns_app.
  replace (spawns es) with (@nil effect); [by rewrite app_nil_r|].
  induction Hes as [|e es He _ IH]; [done|]. by destruct e.
Qed.

Lemma passive_stdout port data : passive (MultiPort.on_stdout port data).
Proof.
  intros s. unfold MultiPort.on_stdout.
  destruct (_ || _); (split; [done|]); (by apply adds_emit) || apply adds_refl.
Qed.

Lemma passive_stderr port data : passive (MultiPort.on_stderr port data).
Proof. intros s. split; [done|]. by apply adds_emit. Qed.

Lemma passive_exit port code : passive (MultiPort.on_exit port code).
Proof.
  intros s. split.
  - rewrite on_exit_processes. unfold forget.
    destruct (findIndex _ _); [apply sublist_delete|done].
  - unfold MultiPort.on_exit.
    destruct (findIndex _ _); by apply (adds_emit no_spawn).
Qed.

Lemma passive_sigint : passive MultiPort.on_SIGINT.
Proof.
  intros s. split; [by rewrite on_SIGINT_processes|].
  eexists. split; [apply on_SIGINT_out|].
  constructor; [done|]. apply Forall_app. split; [|by repeat constructor].
  induction (processes s) as [|e l IH]; [constructor|].
  cbn [flat_map stopping app]. by repeat constructor.
Qed.

Lemma passive_sigterm : passive MultiPort.on_SIGTERM.
Proof.
  intros s. split; [by rewrite on_SIGTERM_processes|].
  eexists. split; [apply on_SIGTERM_out|].
  constructor; [done|]. apply Forall_app. split; [|by repeat constructor].
  induction (processes s) as [|e l IH]; by constructor.
Qed.

Lemma passive_timeout : passive MultiPort.on_timeout.
Proof.
  intros s. split; [done|].
  eapply adds_trans; by apply (adds_emit no_spawn).
Qed.

(** X12.  Nothing is ever restarted.  From the moment its script has run, a
    launcher starts no further child, whatever its children print, however
    they exit and whatever signals arrive: the spawns in its trace stay
    those of the script, and [processes] only ever loses entries. *)
Theorem nothing_is_restarted sc s0 w :
  sc = basic \/ sc = config_based ->
  rtc (step sc) (boot s0) w ->
  spawns (out (st w)) = spawns (out s0)
  /\ processes (st w) `sublist_of` processes s0.
Proof.
  intros Hsc Hrun.
  assert (sc = basic) as -> by (by destruct Hsc as [->| ->]).
  change (spawns (out (st w)) = spawns (out (st (boot s0)))
          /\ processes (st w) `sublist_of` processes (st (boot s0))).
  induction Hrun as [w|w1 w2 w3 Hstep _ IH]; [done|].
  destruct IH as [IH1 IH2].
  assert (Hkeep : spawns (out (st w2)) = spawns (out (st w1))
                  /\ processes (st w2) `sublist_of` processes (st w1)).
  { destruct Hstep; cbn [st basic stdout_data stderr_data child_exit sigint
                          sigterm timeout].
    - destruct (passive_stdout p data (st w)) as [? ?%adds_spawns]. done.
    - destruct (passive_stderr p data (st w)) as [? ?%adds_spawns]. done.
    - destruct (passive_exit p code (st w)) as [? ?%adds_spawns]. done.
    - destruct (passive_sigint (st w)) as [? ?%adds_spawns]. done.
    - destruct (passive_sigterm (st w)) as [? ?%adds_spawns]. done.
    - destruct (passive_timeout (st w)) as [? ?%adds_spawns]. done. }
  destruct Hkeep as [H1 H2]. split; [congruence|by etrans].
Qed.

Lemma nothing_is_restarted_witness :
  let s0 := MultiPort.main ∅ [lit "3000"] in
  let w := {| st := MultiPort.on_exit (Num 3000) (Some 1%Z) (st (boot s0));
              running := delete 0%nat (running (boot s0)) |} in
  spawns (out (st w)) = spawns (out s0)
  /\ processes (st w) `sublist_of` processes s0.
Proof.
  intros s0 w. apply (nothing_is_restarted basic s0 w).
  - by left.
  - apply rtc_once.
    apply (step_exit basic (boot s0) 0%nat 0%nat (Num 3000) (Some 1%Z)).
    reflexivity.
Defined.

End Lifetime.

Section DistinctPorts.

Lemma mirrored_exit w i c p code :
  mirrored w -> running w !! i = Some (c, p) ->
  mirrored {| st := MultiPort.on_exit p code (st w);
              running := delete i (running w) |}.
Proof.
  intros (Hrun & Hnodup & Hreal) Hi. unfold mirrored. cbn [st running].
  rewrite on_exit_processes.
  rewrite Hrun in Hi. change (map as_child ?l) with (as_child <$> l) in Hi.
  apply list_lookup_fmap_Some in Hi as (e & Hcp & He).
  injection Hcp as -> ->.
  assert (Hp : real (Entry.port e)).
  { rewrite Forall_forall in Hreal. apply Hreal.
    apply list_elem_of_In, in_map, list_elem_of_In.
    by eapply list_elem_of_lookup_2. }
  assert (Hin : Entry.port e ∈ map Entry.port (processes (st w))).
  { apply list_elem_of_In, in_map, list_elem_of_In.
    by eapply list_elem_of_lookup_2. }
  destruct (forget_found _ _ Hp Hin) as (j & e' & Hj & He' & _ & ->).
  assert (j = i) as ->.
  { apply (NoDup_lookup _ _ _ (Entry.port e) Hnodup).
    - change (map Entry.port ?l) with (Entry.port <$> l).
      rewrite list_lookup_fmap, Hj. cbn. by rewrite He'.
    - change (map Entry.port ?l) with (Entry.port <$> l).
      by rewrite list_lookup_fmap, He. }
  split; [|split].
  - rewrite Hrun. change (map as_child ?l) with (as_child <$> l).
    by rewrite list_fmap_delete.
  - change (map Entry.port ?l) with (Entry.port <$> l) in *.
    rewrite list_fmap_delete.
    eapply sublist_NoDup; [exact Hnodup|apply sublist_delete].
  - change (map Entry.port ?l) with (Entry.port <$> l) in *.
    rewrite list_fmap_delete. by apply Forall_delete.
Qed.

Lemma mirrored_step w w' : mirrored w -> step basic w w' -> mirrored w'.
Proof.
  intros Hw Hstep. destruct Hstep; cbn [basic stdout_data stderr_data
    child_exit sigint sigterm timeout]; try (by eapply mirrored_exit);
    destruct Hw as (H1 & H2 & H3); unfold mirrored; cbn [st running];
    by rewrite ?on_stdout_processes, ?on_SIGINT_processes, ?on_SIGTERM_processes.
Qed.

Lemma mirrored_run w w' : mirrored w -> rtc (step basic) w w' -> mirrored w'.
Proof. intros Hw Hrun. induction Hrun; eauto using mirrored_step. Qed.

(** X13.  With pairwise different ports the bookkeeping is exact.  If the
    ports a launcher started its children on are pairwise different, then at
    every later moment [processes] lists exactly the children that are still
    running, each with its own handle and port, in starting order; hence
    SIGINT and SIGTERM signal every running child once and no child that has
    exited. *)
Theorem distinct_ports_are_tracked s0 sc w :
  started s0 -> NoDup (map Entry.port (processes s0)) ->
  sc = basic \/ sc = config_based ->
  rtc (step sc) (boot s0) w ->
  running w
  = map (fun e => (Entry.process e, Entry.port e)) (processes (st w))
  /\ kills (performed (sigint sc) (st w))
     = map (fun child => (fst child, SIGTERM)) (running w)
  /\ kills (performed (sigterm sc) (st w))
     = map (fun child => (fst child, SIGTERM)) (running w).
Proof.
  intros Hs0 Hnodup Hsc Hrun.
  assert (sc = basic) as -> by (by destruct Hsc as [->| ->]).
  assert (Hw : mirrored w).
  { eapply mirrored_run; [|exact Hrun].
    split; [done|]. split; [done|]. by apply started_real. }
  destruct Hw as (Hw & _ & _). split; [done|].
  cbn [basic sigint sigterm]. rewrite sigint_kills, sigterm_kills, Hw.
  by rewrite map_map.
Qed.

Lemma distinct_ports_are_tracked_witness :
  let s0 := MultiPort.main ∅ [lit "3000"; lit "3001"] in
  let w := {| st := MultiPort.on_exit (Num 3000) None (st (boot s0));
              running := delete 0%nat (running (boot s0)) |} in
  kills (performed MultiPort.on_SIGINT (st w)) = [(1%nat, SIGTERM)].
Proof.
  intros s0 w.
  change [(1%nat, SIGTERM)] with (map (fun child : nat * number => (fst child, SIGTERM))
                                     (running w)).
  apply (distinct_ports_are_tracked s0 basic w).
  - constructor.
  - change (NoDup [Num 3000; Num 3001]).
    apply (bool_decide_unpack (NoDup [Num 3000; Num 3001])). reflexivity.
  - by left.
  - apply rtc_once.
    apply (step_exit basic (boot s0) 0%nat 0%nat (Num 3000) None).
    reflexivity.
Defined.

(** X14.  A repeated port breaks the bookkeeping.  Started twice on the same
    port, the launcher removes, when the second child exits, the entry of
    the first (the first entry on that port): from then on [processes]
    names the child that is gone and misses the one that runs, and SIGINT
    signals the former and not the latter. *)
Theorem repeated_port_is_mistracked env z code :
  exact (Num z) ->
  let token := number_toString (Num z) in
  let s0 := MultiPort.main env [token; token] in
  let w := {| st := MultiPort.on_exit (Num z) code (st (boot s0));
              running := delete 1%nat (running (boot s0)) |} in
  step basic (boot s0) w
  /\ running w = [(0%nat, Num z)]
  /\ processes (st w) = [{| Entry.port := Num z; Entry.process := 1%nat |}]
  /\ kills (performed MultiPort.on_SIGINT (st w)) = [(1%nat, SIGTERM)].
Proof.
  intros _ token s0 w.
  assert (Hp : processes s0 = [entry_of 0 (Num z); entry_of 1 (Num z)]).
  { destruct (children_basic env [token; token]) as [Hp _].
    assert (Hports : (if MultiPort.help [token; token] then []
                      else MultiPort.ports [token; token]) = [Num z; Num z]).
    { change [token; token] with (tokens [z; z]).
      rewrite (flags_help _ (tokens_flags [z; z])).
      unfold MultiPort.ports. by rewrite tokens_parse. }
    cbv zeta in Hp. rewrite Hports in Hp. exact Hp. }
  assert (Hrun : running (boot s0) = [(0%nat, Num z); (1%nat, Num z)]).
  { unfold boot. cbn [running]. by rewrite Hp. }
  assert (Hst : processes (st w) = [entry_of 1 (Num z)]).
  { subst w. cbn [st boot]. rewrite on_exit_processes, Hp.
    unfold forget, findIndex. cbn [list_find entry_of Entry.port strict_eq].
    rewrite Z.eqb_refl. by rewrite decide_True. }
  split; [|split; [|split]].
  - apply (step_exit basic (boot s0) 1%nat 1%nat (Num z) code). by rewrite Hrun.
  - subst w. cbn [running]. by rewrite Hrun.
  - done.
  - by rewrite sigint_kills, Hst.
Qed.

Lemma repeated_port_is_mistracked_witness :
  let s0 := MultiPort.main ∅ [lit "3000"; lit "3000"] in
  let w := {| st := MultiPort.on_exit (Num 3000) (Some 1%Z) (st (boot s0));
              running := delete 1%nat (running (boot s0)) |} in
  kills (performed MultiPort.on_SIGINT (st w)) = [(1%nat, SIGTERM)].
Proof.
  intros s0 w.
  apply (repeated_port_is_mistracked ∅ 3000%Z (Some 1%Z)).
  by vm_compute.
Defined.

End DistinctPorts.

(** ** What the launcher shows of a server *)

Section StartupLine.

Lemma startsWith_app sub rest : startsWith (sub ++ rest) sub = true.
Proof.
  induction sub as [|c sub IH]; [by destruct rest|].
  cbn. by rewrite N.eqb_refl, IH.
Qed.

Lemma includes_app before sub rest : includes (before ++ sub ++ rest) sub = true.
Proof.
  induction before as [|c before IH].
  - cbn [app]. destruct (sub ++ rest) eqn:E; cbn [includes];
      by rewrite <- ?E, startsWith_app.
  - cbn [app includes]. rewrite IH. apply orb_true_r.
Qed.

(** X15.  The line a server prints when it is up always gets through.  Any
    chunk of standard output that contains the start-up line of the server,
    [🚀 Server running at <url> (Port: <port>)], passes the filter of the
    launcher and is shown, trimmed, behind the tag of the child. *)
Theorem startup_line_is_shown port url server_port before rest s :
  performed (MultiPort.on_stdout port
               (before ++ Server.startup_line url server_port ++ rest)) s
  = [ConsoleLog (port_tag port
                 ++ trim (before ++ Server.startup_line url server_port ++ rest))]
  /\ performed (MultiPortConfig.on_stdout port
                  (before ++ Server.startup_line url server_port ++ rest)) s
     = [ConsoleLog (port_tag port
                    ++ trim (before ++ Server.startup_line url server_port ++ rest))].
Proof.
  change MultiPortConfig.on_stdout with MultiPort.on_stdout.
  rewrite on_stdout_performed.
  assert (H : relevant (before ++ Server.startup_line url server_port ++ rest)
              = true); [|by rewrite H].
  unfold relevant.
  replace (before ++ Server.startup_line url server_port ++ rest)
    with ((before ++ rocket ++ [0x20]) ++ lit "Server running"
          ++ (lit " at " ++ url ++ lit " (Port: "
              ++ number_toString server_port ++ lit ")" ++ rest)).
  { by rewrite includes_app. }
  unfold Server.startup_line.
  change (lit " Server running at ")
    with ([0x20] ++ lit "Server running" ++ lit " at ").
  by rewrite <- !app_assoc.
Qed.

End StartupLine.

(** ** Tokens that only start with a number *)

Section Garbage.

(** X16.  What follows the digits is ignored.  An argument that consists of
    a printed integer (one a JavaScript number holds exactly) followed by
    anything that does not start with a digit, such as [3000abc], [8080/tcp]
    or [12.5], is taken for that integer: either launcher starts one child
    with that integer as [PORT]. *)
Theorem trailing_garbage_is_ignored env file z c junk :
  exact (Num z) -> is_digit c = false ->
  spawn_ports (out (MultiPort.main env [number_toString (Num z) ++ c :: junk]))
  = [Some (number_toString (Num z))]
  /\ spawn_ports (out (MultiPortConfig.main file env
                         [number_toString (Num z) ++ c :: junk]))
     = [Some (number_toString (Num z))].
Proof.
  intros _ Hc. set (token := number_toString (Num z) ++ c :: junk).
  assert (Htoken : parseInt token = Num z) by (by apply parseInt_junk).
  assert (Hflag : forall flag, parseInt flag = NaN -> flag <> token).
  { intros flag Hflag ->. congruence. }
  assert (Hflags : Forall (fun flag => arr_includes flag [token] = false)
                          launcher_flags).
  { repeat constructor; apply absent_single; by apply Hflag. }
  assert (Hparse : MultiPort.parse [token] = [Num z]).
  { unfold MultiPort.parse.
    rewrite absent_single by (by apply Hflag).
    rewrite absent_findIndex by (apply absent_single; by apply Hflag).
    rewrite positional_filter. cbn [map].
    by rewrite filter_cons, Htoken, decide_True. }
  assert (Hne : MultiPort.parse [token] <> []) by (by rewrite Hparse).
  assert (Hports : MultiPort.ports [token] = [Num z]).
  { unfold MultiPort.ports. by rewrite Hparse. }
  split.
  - by rewrite (proj2 (basic_children _ _)), (flags_help _ Hflags), Hports.
  - rewrite (proj2 (config_children _ _ _)).
    by rewrite (run_ports_agree _ _ Hflags Hne), Hports.
Qed.

Lemma trailing_garbage_is_ignored_witness :
  spawn_ports (out (MultiPort.main ∅ [lit "12.5"])) = [Some (lit "12")].
Proof.
  apply (trailing_garbage_is_ignored ∅ MultiPortConfig.Missing 12%Z 0x2E (lit "5")).
  - by vm_compute.
  - reflexivity.
Defined.

End Garbage.

(** ** Without a usable configuration file *)

Section NoConfig.

Lemma after_emit pre e s : emit e (after pre s) = after pre (emit e s).
Proof. unfold emit, after. cbn. by rewrite app_assoc. Qed.

Lemma after_log pre m s : log m (after pre s) = after pre (log m s).
Proof. apply after_emit. Qed.

Lemma after_startServer pre port s :
  MultiPort.startServer port (after pre s)
  = after pre (MultiPort.startServer port s).
Proof.
  unfold MultiPort.startServer, spawn, set_processes, log, emit, after. cbn.
  by rewrite !app_assoc.
Qed.

Lemma after_start_all pre ports : forall s,
  start_all (after pre s) ports = after pre (start_all s ports).
Proof.
  induction ports as [|p ports IH]; intros s; [done|].
  cbn [start_all foldl]. rewrite after_startServer. apply IH.
Qed.

Lemma after_list_all pre cfg s :
  MultiPortConfig.list_all cfg (after pre s)
  = after pre (MultiPortConfig.list_all cfg s).
Proof.
  unfold MultiPortConfig.list_all. rewrite after_log.
  generalize (log (clipboard ++ lit " Available profiles:" ++ nl) s).
  induction (MultiPortConfig.profiles cfg) as [|[name p] l IH]; intros s0; [done|].
  cbn [foldl]. destruct (decide _); [apply IH|].
  unfold MultiPortConfig.list_entry. rewrite !after_log. apply IH.
Qed.

Lemma after_determine pre cfg args s :
  MultiPortConfig.determine cfg args (after pre s)
  = (fst (MultiPortConfig.determine cfg args s),
     after pre (snd (MultiPortConfig.determine cfg args s))).
Proof.
  unfold MultiPortConfig.determine.
  destruct (findIndex _ args); [|done].
  destruct (args !! _); [|done].
  destruct (MultiPortConfig.get_profile _ _) as [[[ps|] [[|c d]|]]|]; cbn [fst snd];
    by rewrite ?after_log, ?after_emit.
Qed.

Lemma after_fallback pre cfg ps s :
  MultiPortConfig.fallback cfg ps (after pre s)
  = (fst (MultiPortConfig.fallback cfg ps s),
     after pre (snd (MultiPortConfig.fallback cfg ps s))).
Proof.
  unfold MultiPortConfig.fallback. destruct (_ =? _)%nat; [|done].
  destruct (MultiPortConfig.get_profile _ _) as [[[?|] ?]|]; cbn [fst snd];
    by rewrite ?after_log.
Qed.

(** X17.  An unreadable configuration file is a missing one plus a warning.
    When [ports.config.json] exists but cannot be parsed, the launcher first
    prints one warning and then behaves, for every argument list, exactly as
    if the file did not exist.  In both cases every [--profile] with a value
    ends in the unknown-profile exit, and without one the ports are those of
    the arguments or, if these yield none, the built-in 3000..3003. *)
Theorem unreadable_config_is_missing_config env args :
  MultiPortConfig.main MultiPortConfig.Unreadable env args
  = after [ConsoleWarn (warning_sign
                        ++ lit "  Could not load ports.config.json, using defaults")]
          (MultiPortConfig.main MultiPortConfig.Missing env args)
  /\ (forall i name,
        findIndex (fun arg => arg = lit "--profile") args = Some i ->
        args !! S i = Some name ->
        MultiPortConfig.ports MultiPortConfig.empty_config args = None)
  /\ ((forall i, findIndex (fun arg => arg = lit "--profile") args = Some i ->
                 args !! S i = None) ->
      MultiPortConfig.ports MultiPortConfig.empty_config args
      = Some (match MultiPortConfig.parse args with
              | [] => [Num 3000; Num 3001; Num 3002; Num 3003]
              | ps => ps
              end)).
Proof.
  split; [|split].
  - unfold MultiPortConfig.main. cbn [MultiPortConfig.load].
    change (emit ?e (initial env)) with (after [e] (initial env)).
    destruct (MultiPortConfig.help args); [by rewrite after_log, after_emit|].
    destruct (MultiPortConfig.listProfiles args);
      [by rewrite after_list_all, after_emit|].
    rewrite after_determine.
    destruct (MultiPortConfig.determine MultiPortConfig.empty_config args
                (initial env)) as [[ps|] s1]; cbn [fst snd]; [|done].
    rewrite after_fallback.
    destruct (MultiPortConfig.fallback MultiPortConfig.empty_config ps s1)
      as [qs s2]; cbn [fst snd].
    rewrite after_log. rewrite startServer_same.
    fold (start_all (after [ConsoleWarn (warning_sign
             ++ lit "  Could not load ports.config.json, using defaults")]
             (log (MultiPortConfig.banner qs) s2)) qs).
    fold (start_all (log (MultiPortConfig.banner qs) s2) qs).
    by rewrite after_start_all, after_log.
  - intros i name Hi Hname. apply ports_None. exists name, i.
    split; [done|]. split; [done|].
    intros prof Hprof. unfold MultiPortConfig.get_profile in Hprof.
    by destruct (decide _).
  - intros Hlast. unfold MultiPortConfig.ports, MultiPortConfig.determine.
    destruct (findIndex _ args) as [i|] eqn:Ei.
    + rewrite Nat.add_1_r, (Hlast i eq_refl). cbn [fst].
      unfold MultiPortConfig.fallback.
      by destruct (MultiPortConfig.parse args).
    + cbn [fst]. unfold MultiPortConfig.fallback.
      by destruct (MultiPortConfig.parse args).
Qed.

Lemma unreadable_config_is_missing_config_witness :
  MultiPortConfig.ports MultiPortConfig.empty_config [lit "--profile"; lit "testing"]
  = None
  /\ MultiPortConfig.ports MultiPortConfig.empty_config [lit "x"]
     = Some [Num 3000; Num 3001; Num 3002; Num 3003].
Proof.
  split.
  - apply (proj1 (proj2 (unreadable_config_is_missing_config ∅
             [lit "--profile"; lit "testing"])) 0%nat (lit "testing"));
      reflexivity.
  - apply (proj2 (proj2 (unreadable_config_is_missing_config ∅ [lit "x"]))).
    intros i Hi. discriminate Hi.
Defined.

(** X18.  Starting nothing.  The config-based launcher can end up with an
    empty port list, in which case it announces 0 instances, starts no
    child and stays up.  This happens only through an empty array in the
    configuration: the [ports] of the development profile, or, when that
    profile has no ports, [defaultPorts]. *)
Theorem empty_port_list_comes_from_the_file cfg args :
  MultiPortConfig.ports cfg args = Some [] ->
  (exists prof,
     MultiPortConfig.get_profile cfg (lit "development") = Some prof
     /\ MultiPortConfig.profile_ports prof = Some [])
  \/ ((forall prof,
         MultiPortConfig.get_profile cfg (lit "development") = Some prof ->
         MultiPortConfig.profile_ports prof = None)
      /\ MultiPortConfig.defaultPorts cfg = Some []).
Proof.
  unfold MultiPortConfig.ports.
  destruct (fst (MultiPortConfig.determine cfg args (initial ∅))) as [ps|];
    [|done].
  intros [= Hfb]. unfold MultiPortConfig.fallback in Hfb.
  destruct (length ps =? 0)%nat eqn:Hlen.
  2:{ cbn [fst] in Hfb. subst ps. done. }
  destruct (MultiPortConfig.get_profile cfg (lit "development"))
    as [[[dev|] d]|] eqn:Hdev; cbn [fst] in Hfb.
  - left. eexists. split; [done|]. cbn. f_equal. by destruct dev.
  - right. split; [by intros prof [= <-]|].
    destruct (MultiPortConfig.defaultPorts cfg) as [[|z dps]|]; done.
  - right. split; [done|].
    destruct (MultiPortConfig.defaultPorts cfg) as [[|z dps]|]; done.
Qed.

Lemma empty_port_list_comes_from_the_file_witness :
  (exists prof,
     MultiPortConfig.get_profile
       {| MultiPortConfig.defaultPorts := Some [3000]%Z;
          MultiPortConfig.profiles :=
            [(lit "development",
              {| MultiPortConfig.profile_ports := Some [];
                 MultiPortConfig.description := None |})] |}
       (lit "development") = Some prof
     /\ MultiPortConfig.profile_ports prof = Some [])
  \/ ((forall prof,
         MultiPortConfig.get_profile
           {| MultiPortConfig.defaultPorts := Some [3000]%Z;
              MultiPortConfig.profiles :=
                [(lit "development",
                  {| MultiPortConfig.profile_ports := Some [];
                     MultiPortConfig.description := None |})] |}
           (lit "development") = Some prof ->
         MultiPortConfig.profile_ports prof = None)
      /\ MultiPortConfig.defaultPorts
           {| MultiPortConfig.defaultPorts := Some [3000]%Z;
              MultiPortConfig.profiles :=
                [(lit "development",
                  {| MultiPortConfig.profile_ports := Some [];
                     MultiPortConfig.description := None |})] |} = Some []).
Proof.
  apply (empty_port_list_comes_from_the_file _ [lit "abc"]). reflexivity.
Defined.

End NoConfig.

Section ExactCount.

(** X19.  The ports in [processes] are always those of the running
    children.  At every moment of a run of either launcher, the ports
    recorded in [processes] are, counted with repetitions, exactly the ports
    of the children that have not exited; in particular [processes] has as
    many entries as there are running children, repeated ports or not. *)
Theorem recorded_ports_are_running_ports s0 sc w :
  started s0 -> sc = basic \/ sc = config_based ->
  rtc (step sc) (boot s0) w ->
  map Entry.port (processes (st w)) ≡ₚ map snd (running w)
  /\ length (processes (st w)) = length (running w).
Proof.
  intros Hs0 Hsc Hrun.
  assert (sc = basic) as -> by (by destruct Hsc as [->| ->]).
  assert (Hw : tracked w).
  { eapply run_tracked; [|done]. by apply boot_tracked, started_real. }
  split; [apply Hw|by apply tracked_length].
Qed.

Lemma recorded_ports_are_running_ports_witness :
  let s0 := MultiPort.main ∅ [lit "3000"; lit "3000"] in
  let w := {| st := MultiPort.on_exit (Num 3000) None (st (boot s0));
              running := delete 1%nat (running (boot s0)) |} in
  length (processes (st w)) = length (running w).
Proof.
  intros s0 w. apply (recorded_ports_are_running_ports s0 basic w).
  - constructor.
  - by left.
  - apply rtc_once.
    apply (step_exit basic (boot s0) 1%nat 1%nat (Num 3000) None).
    reflexivity.
Defined.

End ExactCount.

(** * The claims, continued *)

Section SpawnedChildren.

Lemma spawned_children_app es es' :
  spawned_children (es ++ es') = spawned_children es ++ spawned_children es'.
Proof. apply omap_app. Qed.

Lemma spawned_children_spawns es :
  spawned_children es = spawned_children (spawns es).
Proof.
  unfold spawned_children, spawns.
  induction es as [|e es IH]; [done|].
  destruct e; cbn; try exact IH. f_equal. exact IH.
Qed.

Lemma spawned_children_spawning env (cs : list nat) (ps : list number) :
  spawned_children (zip_with (spawning env) cs ps)
  = map as_spawned (zip_with (fun c p => (c, p)) cs ps).
Proof.
  revert ps. induction cs as [|c cs IH]; intros [|p ps]; try done.
  cbn. rewrite lookup_insert_eq. f_equal. apply IH.
Qed.

Lemma as_child_entries (cs : list nat) (ps : list number) :
  map as_child (zip_with entry_of cs ps) = zip_with (fun c p => (c, p)) cs ps.
Proof.
  revert ps. induction cs as [|c cs IH]; intros [|p ps]; try done.
  cbn. f_equal. apply IH.
Qed.

(** When a script has run, the children taken to be running are the
    children its trace has spawned, handle by handle and port by port. *)
Lemma boot_spawned s0 :
  started s0 ->
  spawned_children (out s0) = map as_spawned (running (boot s0)).
Proof.
  intros [env args|file env args]; unfold boot; cbn [running];
    rewrite spawned_children_spawns.
  - destruct (children_basic env args) as [-> ->].
    fold as_child. by rewrite spawned_children_spawning, as_child_entries.
  - destruct (children_config file env args) as [-> ->].
    fold as_child. by rewrite spawned_children_spawning, as_child_entries.
Qed.

Lemma running_shrinks sc w w' :
  rtc (step sc) w w' -> running w' `sublist_of` running w.
Proof.
  induction 1 as [w|w1 w2 w3 Hstep _ IH]; [done|].
  etrans; [exact IH|]. destruct Hstep; cbn [running]; try done.
  apply sublist_delete.
Qed.

Lemma startServer_performed port s :
  performed (MultiPort.startServer port) s = starting (penv s) (spawned s) port.
Proof.
  unfold performed. rewrite startServer_out. by rewrite drop_app_length.
Qed.

End SpawnedChildren.

Section RevisedClaims.

(** C7.  [startServer] spawns exactly one child and appends exactly one
    entry, which pairs the port with the handle of that very child.  Once
    either script has run, the children taken to be running are exactly the
    children its trace has spawned; they only leave that list by exiting;
    the exit listener of a child removes the first entry whose port is the
    port of that child, and nothing when there is none; and at every moment
    [processes] is no longer than the list of the children that were
    spawned and have not exited. *)
Theorem C7_bookkeeping s0 sc w :
  started s0 -> sc = basic \/ sc = config_based ->
  rtc (step sc) (boot s0) w ->
  spawned_children (out s0)
  = map (fun child => (fst child, Some (number_toString (snd child))))
        (running (boot s0))
  /\ running w `sublist_of` running (boot s0)
  /\ (length (processes (st w)) <= length (running w))%nat
  /\ (forall port s,
        spawned_children (performed (MultiPort.startServer port) s)
        = [(spawned s, Some (number_toString port))]
        /\ processes (MultiPort.startServer port s)
           = processes s ++ [{| Entry.port := port; Entry.process := spawned s |}]
        /\ spawned_children (performed (MultiPortConfig.startServer port) s)
           = [(spawned s, Some (number_toString port))]
        /\ processes (MultiPortConfig.startServer port s)
           = processes s ++ [{| Entry.port := port; Entry.process := spawned s |}])
  /\ (forall port code s,
        real port ->
        (port ∈ map Entry.port (processes s) ->
         exists i e,
           processes s !! i = Some e /\ Entry.port e = port
           /\ (forall j e', processes s !! j = Some e' -> (j < i)%nat ->
                            Entry.port e' <> port)
           /\ processes (child_exit sc port code s) = delete i (processes s))
        /\ (port ∉ map Entry.port (processes s) ->
            processes (child_exit sc port code s) = processes s)).
Proof.
  intros Hs0 Hsc Hrun.
  split; [by apply boot_spawned|].
  split; [by eapply running_shrinks|].
  assert (sc = basic) as -> by (by destruct Hsc as [->| ->]).
  split; [|split].
  - rewrite (tracked_length w); [done|].
    eapply run_tracked; [|done]. by apply boot_tracked, started_real.
  - intros port s. rewrite startServer_same, startServer_performed.
    assert (H : spawned_children (starting (penv s) (spawned s) port)
                = [(spawned s, Some (number_toString port))]).
    { cbn. by rewrite lookup_insert_eq. }
    by rewrite H, startServer_processes.
  - intros port code s Hport. cbn [basic child_exit].
    rewrite on_exit_processes. split.
    + intros Hin. by apply forget_found.
    + apply forget_absent.
Qed.

Lemma C7_bookkeeping_witness :
  let s0 := MultiPort.main ∅ [lit "3000"; lit "3000"] in
  let w := {| st := MultiPort.on_exit (Num 3000) (Some 1%Z) (st (boot s0));
              running := delete 1%nat (running (boot s0)) |} in
  spawned_children (out s0) = [(0%nat, Some (lit "3000")); (1%nat, Some (lit "3000"))]
  /\ (length (processes (st w)) <= length (running w))%nat.
Proof.
  intros s0 w.
  assert (Hrun : rtc (step basic) (boot s0) w).
  { apply rtc_once.
    apply (step_exit basic (boot s0) 1%nat 1%nat (Num 3000) (Some 1%Z)).
    reflexivity. }
  destruct (C7_bookkeeping s0 basic w (started_basic ∅ _) (or_introl eq_refl) Hrun)
    as (Hspawned & _ & Hlen & _).
  split; [rewrite Hspawned; reflexivity|exact Hlen].
Defined.




End RevisedClaims.

(** ** The two launchers side by side *)

Section SameSpecification.

(** A port that the port specification yields is in the list that the
    basic launcher parses from the arguments. *)
Lemma specified_parsed args p :
  arr_includes (lit "--default") args = false ->
  specified args p -> p <> NaN -> p ∈ MultiPort.parse args.
Proof.
  intros Hdefault Hspec Hp. unfold MultiPort.parse. rewrite Hdefault.
  destruct Hspec as [pre value post item -> Hpre Hitem Hparse|arg Hlast Harg Hparse].
  - rewrite findIndex_first by done.
    rewrite Nat.add_1_r, lookup_after. unfold MultiPort.from_list.
    apply list_elem_of_filter. split; [by destruct p|].
    apply list_elem_of_In, in_map_iff. exists item.
    by rewrite <- list_elem_of_In.
  - assert (Hin : p ∈ MultiPort.positional args).
    { rewrite positional_filter. apply list_elem_of_filter.
      split; [by destruct p|].
      apply list_elem_of_In, in_map_iff. exists arg.
      by rewrite <- list_elem_of_In. }
    destruct (findIndex _ args) as [i|] eqn:E; [|done].
    apply findIndex_flag, Hlast in E. by rewrite Nat.add_1_r, E.
Qed.

Lemma specified_nonempty args :
  arr_includes (lit "--default") args = false ->
  (exists p, specified args p /\ p <> NaN) -> MultiPort.parse args <> [].
Proof.
  intros Hdefault (p & Hspec & Hp) Hnil.
  pose proof (specified_parsed args p Hdefault Hspec Hp) as Hin.
  rewrite Hnil in Hin. by apply elem_of_nil in Hin.
Qed.

(** C6.  On an argument list that uses none of the flags [--default],
    [--profile], [--help], [-h], [--list], [-l], both launchers parse the
    same ports from the arguments.  When the port specification of the
    arguments is not empty, that is, it yields at least one number, both
    launchers compute the same port list and start the same children;
    unless the configuration file is unreadable (which adds a warning) the
    two runs are equal altogether.  The two [startServer] functions are the
    same function: for a given port both spawn their child with the same
    command, arguments, environment and stdio. *)
Theorem C6_duplicated_logic file env args :
  Forall (fun flag => arr_includes flag args = false) launcher_flags ->
  MultiPortConfig.parse args = MultiPort.parse args
  /\ ((exists p, specified args p /\ p <> NaN) ->
      MultiPortConfig.ports (config_of file) args = Some (MultiPort.ports args)
      /\ map Entry.port (processes (MultiPortConfig.main file env args))
         = map Entry.port (processes (MultiPort.main env args))
      /\ spawns (out (MultiPortConfig.main file env args))
         = spawns (out (MultiPort.main env args))
      /\ (file <> MultiPortConfig.Unreadable ->
          MultiPortConfig.main file env args = MultiPort.main env args))
  /\ (forall port s,
        MultiPortConfig.startServer port s = MultiPort.startServer port s
        /\ spawns (performed (MultiPort.startServer port) s)
           = [Spawn (spawned s) (lit "bun") [lit "--hot"; lit "src/index.tsx"]
                    (<[lit "PORT" := number_toString port]> (penv s))
                    (lit "pipe")]).
Proof.
  intros Hflags.
  pose proof (Hdefault := Hflags). apply Forall_cons in Hdefault as [Hdefault _].
  split; [by apply parse_config_basic|]. split.
  - intros Hne%(specified_nonempty _ Hdefault).
    destruct (ports_agree (config_of file) args Hflags Hne)
      as (Hhelp & Hhelp' & Hlist & Hports & Hdet & Hfb).
    pose proof (run_ports_agree file args Hflags Hne) as Hrun.
    destruct (config_children file env args) as [Hc1 _].
    destruct (basic_children env args) as [Hb1 _].
    rewrite Hhelp in Hb1.
    assert (Hmain : file <> MultiPortConfig.Unreadable ->
                    MultiPortConfig.main file env args = MultiPort.main env args).
    { intros Hfile. unfold MultiPortConfig.main, MultiPort.main.
      replace (MultiPortConfig.load file (initial env))
        with (config_of file, initial env) by (by destruct file).
      by rewrite Hhelp, Hhelp', Hlist, Hdet, Hfb, Hports. }
    split.
    { unfold MultiPortConfig.ports.
      by rewrite Hdet, Hports; cbn [fst]; rewrite Hfb. }
    split; [congruence|]. split; [|done].
    rewrite (proj2 (children_config file env args)).
    rewrite (proj2 (children_basic env args)).
    by rewrite Hrun, Hhelp.
  - intros port s. split; [done|].
    rewrite startServer_performed. reflexivity.
Qed.

Lemma C6_duplicated_logic_witness :
  MultiPortConfig.main MultiPortConfig.Missing ∅ [lit "3000"; lit "3001"]
  = MultiPort.main ∅ [lit "3000"; lit "3001"].
Proof.
  apply (C6_duplicated_logic MultiPortConfig.Missing ∅ [lit "3000"; lit "3001"]).
  - repeat constructor.
  - exists (Num 3000). split; [|discriminate].
    apply (as_argument _ _ (lit "3000")).
    + intros [|[|i]] H; [vm_compute in H; discriminate H..|done].
    + apply list_elem_of_here.
    + reflexivity.
  - discriminate.
Defined.

End SameSpecification.

(** ** The port in the answers *)

Section PortField.

(** C10 (as amended).  Every answer of the three hello handlers carries a
    [port] field holding the port the server instance was configured with:
    [parseInt] of [PORT] when [PORT] is set and not empty, 3000 when it is
    unset or empty.  This holds of the three handlers one by one and of
    every handler of the route table that answers with JSON.  The statement
    is about an instance whose configured port is a number [z]; what
    [serve] does with a port that is [NaN] is not in the source. *)
Theorem C10_port_field env req z :
  configured_port env = Num z ->
  Server.get (lit "port") (Server.hello_GET (Server.port env) req)
  = Some (Server.JNumber z)
  /\ Server.get (lit "port") (Server.hello_PUT (Server.port env) req)
     = Some (Server.JNumber z)
  /\ Server.get (lit "port") (Server.hello_name (Server.port env) req)
     = Some (Server.JNumber z)
  /\ Forall (fun '(_, _, handler) =>
               Server.get (lit "port") (handler req) = Some (Server.JNumber z))
            (Server.json_handlers (Server.routes (Server.port env))).
Proof.
  intros Hport.
  assert (Hsame : Server.port env = Num z).
  { rewrite <- Hport. unfold Server.port, configured_port.
    by destruct (env !! lit "PORT") as [[|c s]|]. }
  rewrite Hsame. split; [done|]. split; [done|]. split; [done|].
  by repeat constructor.
Qed.

Lemma C10_port_field_witness :
  Server.get (lit "port")
    (Server.hello_name (Server.port {[ lit "PORT" := lit "4001" ]})
                       {| Server.params := {[ lit "name" := lit "Ada" ]} |})
  = Some (Server.JNumber 4001).
Proof.
  apply (C10_port_field {[ lit "PORT" := lit "4001" ]}
           {| Server.params := {[ lit "name" := lit "Ada" ]} |} 4001).
  reflexivity.
Defined.

End PortField.
